(** * The compose stack controller of testcontainers-go ([compose_api.go])

    A shallow embedding of [dockerCompose] and its operations ([Up], [Down],
    [ServiceContainer], [WithEnv], [compileProject], ...), followed by the
    properties of the controller that the specification states.

    Conventions of the embedding:
    - Go maps are [gmap]s, slices are lists, a nilable pointer is an [option];
    - a method with a pointer receiver is a state transformer on [State], which
      holds the controller, the state of the outside world (container engine,
      file system) and the log of the calls made to the collaborators;
    - the controller's [lock] makes every public operation atomic; the
      embedding is sequential, so the lock has no counterpart;
    - the [context.Context] arguments only carry deadlines and cancellation
      and are left out. *)

From Stdlib Require Import String Ascii List Arith ZArith Lia OrderedTypeEx.
From stdpp Require Import gmap strings list fin_maps sorting pretty.
From Equations Require Import Equations.

Local Open Scope string_scope.
Local Open Scope list_scope.

(** ** Go strings and package [sort] *)

(** Go compares strings byte by byte; [a < b] on strings is [strLess]. *)
Definition strLess (a b : string) : bool := String.ltb a b.

Definition string_le (a b : string) : Prop := String.leb a b = true.

#[global] Instance string_le_dec a b : Decision (string_le a b).
Proof. unfold string_le. apply _. Defined.

(** [sort.Strings]: sorts in increasing order.  The order is total and equal
    strings cannot be told apart, so the result does not depend on the sorting
    algorithm (see [sort_Strings_unique]). *)
Definition sort_Strings (x : list string) : list string :=
  merge_sort string_le x.

(** [sort.Search]: the loop [for i < j { h := int(uint(i+j) >> 1); ... }].
    The indices are Go [int]s between 0 and the length of a slice, where
    [uint(i+j) >> 1] is the half of [i+j] without overflow; they are natural
    numbers here. *)
Equations? search_loop (f : nat -> bool) (i j : nat) : nat by wf (j - i) lt :=
  search_loop f i j with lt_dec i j => {
    | left _ := if f ((i + j) / 2) then search_loop f i ((i + j) / 2)
                else search_loop f (S ((i + j) / 2)) j;
    | right _ := i }.
Proof.
  all: change (Nat.divmod (i + j) 1 0 1).1 with ((i + j) / 2);
    pose proof (Nat.div_mod_eq (i + j) 2);
    pose proof (Nat.mod_upper_bound (i + j) 2); lia.
Qed.

Definition sort_Search (n : nat) (f : nat -> bool) : nat := search_loop f 0 n.

(** [sort.SearchStrings(a, x)] is [Search(len(a), func(i) { a[i] >= x })]. *)
Definition sort_SearchStrings (a : list string) (x : string) : nat :=
  sort_Search (length a) (fun i => negb (strLess (a !!! i) x)).

(** [strings.Join]. *)
Definition strings_Join (elems : list string) (sep : string) : string :=
  String.concat sep elems.

(** ** Errors

    The two errors the controller builds itself with [fmt.Errorf], and the
    errors handed back by a collaborator, which it passes on as they are. *)
Inductive error : Type :=
| errEnvAlreadySet (k : string)     (* "environment with key %s already set" *)
| errNoContainer (svcName : string) (* "no container found for service name %s" *)
| errExternal (msg : string).

(** A Go call either returns or panics: with the error handed to [panic], on
    a slice bound that is out of range, or on a nil pointer dereference. *)
Inductive panic : Type :=
| panicError (err : string)
| panicSliceBounds
| panicNilDereference.

Inductive outcome (A : Type) : Type :=
| Returns (a : A)
| Panics (p : panic).
Arguments Returns {A} a.
Arguments Panics {A} p.

(** ** Data of the collaborating packages *)

(** compose-go [types.ServiceConfig]: the fields the controller touches, and
    [Image] standing for the rest of the definition. *)
Module ServiceConfig.
Record t : Type := mk {
  Name : string;
  Image : string;
  CustomLabels : gmap string string
}.
Definition setCustomLabels (l : gmap string string) (s : t) : t :=
  {| Name := Name s; Image := Image s; CustomLabels := l |}.
End ServiceConfig.

(** compose-go [types.Project]. *)
Module Project.
Record t : Type := mk {
  Name : string;
  WorkingDir : string;
  ComposeFiles : list string;
  Services : list ServiceConfig.t
}.
Definition setServices (l : list ServiceConfig.t) (p : t) : t :=
  {| Name := Name p; WorkingDir := WorkingDir p;
     ComposeFiles := ComposeFiles p; Services := l |}.
End Project.

(** compose-go [cli.ProjectOptions]. *)
Module ProjectOptions.
Record t : Type := mk {
  Name : string;
  WorkingDir : string;
  ConfigPaths : list string;
  Environment : gmap string string;
  EnvFile : string
}.
Definition setEnvironment (e : gmap string string) (o : t) : t :=
  {| Name := Name o; WorkingDir := WorkingDir o;
     ConfigPaths := ConfigPaths o; Environment := e; EnvFile := EnvFile o |}.
End ProjectOptions.

(** docker/compose [api.CreateOptions], [api.StartOptions], [api.UpOptions]
    and [api.DownOptions], with the fields the controller fills in. *)
Inductive RecreatePolicy : Type := RecreateDiverged | RecreateForce | RecreateNever.

Module CreateOptions.
Record t : Type := mk {
  Services : list string;
  Recreate : RecreatePolicy;
  RecreateDependencies : RecreatePolicy;
  RemoveOrphans : bool
}.
End CreateOptions.

Module StartOptions.
Record t : Type := mk {
  Project : option Project.t;
  Wait : bool
}.
End StartOptions.

Module UpOptions.
Record t : Type := mk {
  Create : CreateOptions.t;
  Start : StartOptions.t
}.
End UpOptions.

Module DownOptions.
Record t : Type := mk {
  RemoveOrphans : bool;
  Project : option Project.t;
  Images : string
}.
End DownOptions.

(** docker [types.ContainerListOptions] (filters as the list of arguments given
    to [filters.NewArgs]) and [types.Container]. *)
Module ContainerListOptions.
Record t : Type := mk {
  All : bool;
  Filters : list (string * string)
}.
End ContainerListOptions.

Module Container.
Record t : Type := mk {
  ID : string;
  Names : list string
}.
End Container.

(** The label keys and the version string of docker/compose's package [api].
    Their values are not part of this repository. *)
Class ComposeLabels : Type := {
  ProjectLabel : string;
  ServiceLabel : string;
  VersionLabel : string;
  WorkingDirLabel : string;
  ConfigFilesLabel : string;
  OneoffLabel : string;
  EnvironmentFileLabel : string;
  ComposeVersion : string
}.

(** ** Options of [Up] and [Down] *)

Module stackUpOptions.
(** The [Project] field of the Go struct is a pointer to the controller's
    own project; no option of this file redirects it, so the embedding reads
    the controller's project where the Go code reads [upOptions.Project]. *)
Record t : Type := mk {
  Services : list string;
  Recreate : RecreatePolicy;
  RecreateDependencies : RecreatePolicy;
  RemoveOrphans : bool;
  Wait : bool
}.
End stackUpOptions.

(** The implementations of [StackUpOption] in this file. *)
Inductive StackUpOption : Type :=
| RunServices (serviceNames : list string)
| RemoveOrphansUp (ro : bool)
| Wait (w : bool).

Definition applyToStackUp (opt : StackUpOption) (o : stackUpOptions.t) : stackUpOptions.t :=
  match opt with
  | RunServices serviceNames =>
      stackUpOptions.mk serviceNames (stackUpOptions.Recreate o)
        (stackUpOptions.RecreateDependencies o) (stackUpOptions.RemoveOrphans o)
        (stackUpOptions.Wait o)
  | RemoveOrphansUp ro =>
      stackUpOptions.mk (stackUpOptions.Services o) (stackUpOptions.Recreate o)
        (stackUpOptions.RecreateDependencies o) ro (stackUpOptions.Wait o)
  | Wait w =>
      stackUpOptions.mk (stackUpOptions.Services o) (stackUpOptions.Recreate o)
        (stackUpOptions.RecreateDependencies o) (stackUpOptions.RemoveOrphans o) w
  end.

(** [RemoveImages] is a [uint8]; [RemoveImagesAll] and [RemoveImagesLocal] are
    the [iota] constants 0 and 1. *)
Definition RemoveImagesAll : Z := 0.
Definition RemoveImagesLocal : Z := 1.

(** The implementations of [StackDownOption] in this file. *)
Inductive StackDownOption : Type :=
| RemoveOrphansDown (ro : bool)
| RemoveImages (ri : Z).

Definition applyToStackDown (opt : StackDownOption) (o : DownOptions.t) : DownOptions.t :=
  match opt with
  | RemoveOrphansDown ro =>
      DownOptions.mk ro (DownOptions.Project o) (DownOptions.Images o)
  | RemoveImages ri =>
      if (ri =? RemoveImagesAll)%Z then
        DownOptions.mk (DownOptions.RemoveOrphans o) (DownOptions.Project o) "all"
      else if (ri =? RemoveImagesLocal)%Z then
        DownOptions.mk (DownOptions.RemoveOrphans o) (DownOptions.Project o) "local"
      else o
  end.

(** ** Narrowing the project to the requested services (in [Up]) *)

(** The loop over [d.project.Services]: a service is appended to
    [filteredServices] when the binary search finds its name in the sorted
    list of requested names. *)
Definition requestedIn (names : list string) (s : ServiceConfig.t) : bool :=
  let idx := sort_SearchStrings names (ServiceConfig.Name s) in
  match names !! idx with
  | Some n => bool_decide (n = ServiceConfig.Name s)
  | None => false (* idx < len(names) fails *)
  end.

Definition filterLoop (names : list string) (services : list ServiceConfig.t)
  : list ServiceConfig.t :=
  foldl (fun filteredServices s =>
           if requestedIn names s then filteredServices ++ [s]
           else filteredServices) [] services.

(** The block [if len(upOptions.Services) != len(d.project.Services) { ... }]:
    returns the new [upOptions.Services] (sorted in place when the block runs)
    and the new [d.project.Services]. *)
Definition upFilter (requested : list string) (services : list ServiceConfig.t)
  : list string * list ServiceConfig.t :=
  if decide (length requested ≠ length services) then
    let sorted := sort_Strings requested in
    (sorted, filterLoop sorted services)
  else (requested, services).

(** compose-go [cli.ProjectOptionsFn]: mutates the options it is given and may
    fail.  [World] is the state of everything outside the controller
    (container engine, file system, process environment). *)
Definition ProjectOptionsFn (World : Type) : Type :=
  ProjectOptions.t -> World -> option error * ProjectOptions.t.

(** What the controller uses from compose-go and from Go's runtime:
    [cli.WithOsEnv], [cli.WithName], [cli.WithDefaultConfigPath],
    [cli.ProjectFromOptions], [Project.ServiceNames], and the order in which
    [range] visits the entries of a map, which the runtime chooses. *)
Class Collaborators (World : Type) : Type := {
  cli_WithOsEnv : ProjectOptionsFn World;
  cli_WithName : string -> ProjectOptionsFn World;
  cli_WithDefaultConfigPath : ProjectOptionsFn World;
  cli_ProjectFromOptions : ProjectOptions.t -> World -> string + Project.t;
  Project_ServiceNames : Project.t -> list string;
  rangeOrder : gmap string string -> list (string * string)
}.

(** ** The controller *)

Section Controller.
(** [Strategy] is [wait.Strategy]. *)
Context {World Strategy : Type}.
Context `{ComposeLabels} `{Collaborators World}.

(** The collaborators the controller holds as interface values: docker
    compose's [api.Service] and the docker [client.APIClient].  Their
    errors are messages; the controller passes them on as [errExternal]. *)
Record api_Service : Type := {
  Service_Up : Project.t -> UpOptions.t -> World -> option string * World;
  Service_Down : string -> DownOptions.t -> World -> option string * World
}.

Record APIClient : Type := {
  ContainerList : ContainerListOptions.t -> World -> (string + list Container.t) * World
}.

Record DockerProvider : Type := { client : APIClient }.

Record DockerContainer : Type := {
  ID : string;
  provider : DockerProvider
}.

Record dockerCompose : Type := {
  name : string;
  configs : list string;
  waitStrategies : gmap string Strategy;
  containers : gmap string DockerContainer;
  composeService : api_Service;
  dockerClient : APIClient;
  projectOptions : list (ProjectOptionsFn World);
  project : option Project.t
}.

Definition setWaitStrategies (ws : gmap string Strategy) (d : dockerCompose) :=
  {| name := name d; configs := configs d; waitStrategies := ws;
     containers := containers d; composeService := composeService d;
     dockerClient := dockerClient d; projectOptions := projectOptions d;
     project := project d |}.

Definition setContainers (cs : gmap string DockerContainer) (d : dockerCompose) :=
  {| name := name d; configs := configs d; waitStrategies := waitStrategies d;
     containers := cs; composeService := composeService d;
     dockerClient := dockerClient d; projectOptions := projectOptions d;
     project := project d |}.

Definition setProjectOptions (po : list (ProjectOptionsFn World)) (d : dockerCompose) :=
  {| name := name d; configs := configs d; waitStrategies := waitStrategies d;
     containers := containers d; composeService := composeService d;
     dockerClient := dockerClient d; projectOptions := po;
     project := project d |}.

Definition setProject (p : option Project.t) (d : dockerCompose) :=
  {| name := name d; configs := configs d; waitStrategies := waitStrategies d;
     containers := containers d; composeService := composeService d;
     dockerClient := dockerClient d; projectOptions := projectOptions d;
     project := p |}.

(** The calls made to the collaborators, in the order they are issued. *)
Inductive Call : Type :=
| CallUp (p : Project.t) (o : UpOptions.t)
| CallDown (projectName : string) (o : DownOptions.t)
| CallContainerList (o : ContainerListOptions.t).

Record State : Type := {
  ctl : dockerCompose;
  world : World;
  calls : list Call
}.

(** *** The state monad of the controller's methods *)

Definition M (A : Type) : Type := State -> A * State.

#[global] Instance M_ret : MRet M := fun A a st => (a, st).

#[global] Instance M_bind : MBind M :=
  fun A B k m st => let '(a, st') := m st in k a st'.

Definition getCtl : M dockerCompose := fun st => (ctl st, st).

Definition getWorld : M World := fun st => (world st, st).

Definition modifyCtl (f : dockerCompose -> dockerCompose) : M unit :=
  fun st => (tt, {| ctl := f (ctl st); world := world st; calls := calls st |}).

(** A call to a collaborator: it runs on the world and is logged. *)
Definition invoke {A} (c : Call) (f : World -> A * World) : M A :=
  fun st => let '(a, w) := f (world st) in
            (a, {| ctl := ctl st; world := w; calls := calls st ++ [c] |}).

(** The readiness fan-out of [Up]: one goroutine per entry of
    [waitStrategies], each calling [lookupContainer] and then the strategy's
    [WaitUntilReady], joined by [errGrp.Wait].  The goroutines run
    concurrently; their joint effect is a parameter of the embedding. *)
Class Readiness : Type :=
  readinessFanOut : gmap string Strategy -> M (option error).
Context `{Readiness}.

(** [cli.NewProjectOptions]: starts from the config paths and an empty
    environment and applies the option functions in order to that one
    options value, stopping at the first error. *)
Fixpoint applyProjectOptions (opts : list (ProjectOptionsFn World))
    (options : ProjectOptions.t) (w : World) : error + ProjectOptions.t :=
  match opts with
  | [] => inr options
  | o :: rest =>
      match o options w with
      | (Some err, _) => inl err
      | (None, options') => applyProjectOptions rest options' w
      end
  end.

Definition cli_NewProjectOptions (configs : list string)
    (opts : list (ProjectOptionsFn World)) (w : World) : error + ProjectOptions.t :=
  applyProjectOptions opts (ProjectOptions.mk "" "" configs ∅ "") w.

(** *** Configuration mutators *)

(** The body of the closure returned by [withEnv], along the order in which
    [range env] yields the entries.  [options.Environment] is updated in
    place, so the entries set before a duplicate is met stay set. *)
Fixpoint withEnvLoop (entries : list (string * string))
    (options : ProjectOptions.t) : option error * ProjectOptions.t :=
  match entries with
  | [] => (None, options)
  | (k, v) :: rest =>
      match ProjectOptions.Environment options !! k with
      | Some _ => (Some (errEnvAlreadySet k), options)
      | None =>
          withEnvLoop rest
            (ProjectOptions.setEnvironment
               (<[k := v]> (ProjectOptions.Environment options)) options)
      end
  end.

Definition withEnv (env : gmap string string) : ProjectOptionsFn World :=
  fun options _ => withEnvLoop (rangeOrder env) options.

Definition WithEnv (m : gmap string string) (d : dockerCompose) : dockerCompose :=
  setProjectOptions (projectOptions d ++ [withEnv m]) d.

Definition WithOsEnv (d : dockerCompose) : dockerCompose :=
  setProjectOptions (projectOptions d ++ [cli_WithOsEnv]) d.

Definition WaitForService (s : string) (strategy : Strategy) (d : dockerCompose)
  : dockerCompose :=
  setWaitStrategies (<[s := strategy]> (waitStrategies d)) d.

(** *** Looking up the container of a service *)

(** The handle [lookupContainer] builds from a descriptor of the engine. *)
Definition handleOf (d : dockerCompose) (containerInstance : Container.t)
  : DockerContainer :=
  {| ID := Container.ID containerInstance;
     provider := {| client := dockerClient d |} |}.

(** The [listOptions] of [lookupContainer]: all containers carrying the
    project label of stack [stackName] and the service label of [svcName]. *)
Definition listOptionsFor (stackName svcName : string) : ContainerListOptions.t :=
  ContainerListOptions.mk true
    [("label", (ProjectLabel ++ "=" ++ stackName)%string);
     ("label", (ServiceLabel ++ "=" ++ svcName)%string)].

Definition lookupContainer (svcName : string) : M (error + DockerContainer) :=
  d ← getCtl;
  match containers d !! svcName with
  | Some container => mret (inr container)
  | None =>
      let listOptions := listOptionsFor (name d) svcName in
      r ← invoke (CallContainerList listOptions)
                 (ContainerList (dockerClient d) listOptions);
      match r with
      | inl err => mret (inl (errExternal err))
      | inr [] => mret (inl (errNoContainer svcName))
      | inr (containerInstance :: _) =>
          let container := handleOf d containerInstance in
          modifyCtl (fun d => setContainers (<[svcName := container]> (containers d)) d);;
          mret (inr container)
      end
  end.

Definition ServiceContainer (svcName : string) : M (error + DockerContainer) :=
  lookupContainer svcName.

(** [Services]: [d.project.ServiceNames()], with no check that the project
    was compiled; on a nil project the call dereferences a nil pointer. *)
Definition Services : M (outcome (list string)) :=
  d ← getCtl;
  match project d with
  | None => mret (Panics panicNilDereference)
  | Some p => mret (Returns (Project_ServiceNames p))
  end.

(** A sequence of lookups, one after the other. *)
Fixpoint lookups (svcNames : list string) : M unit :=
  match svcNames with
  | [] => mret tt
  | svcName :: rest => ServiceContainer svcName;; lookups rest
  end.

(** *** Compiling the project *)

(** The labels stamped on service [s] of project [proj]. *)
Definition serviceLabels (proj : Project.t) (envFile : string)
    (s : ServiceConfig.t) : gmap string string :=
  let CustomLabels : gmap string string :=
    <[OneoffLabel := "False"]>
    (<[ConfigFilesLabel := strings_Join (Project.ComposeFiles proj) ","]>
    (<[WorkingDirLabel := Project.WorkingDir proj]>
    (<[VersionLabel := ComposeVersion]>
    (<[ServiceLabel := ServiceConfig.Name s]>
    (<[ProjectLabel := Project.Name proj]> ∅))))) in
  if decide (envFile ≠ "") then <[EnvironmentFileLabel := envFile]> CustomLabels
  else CustomLabels.

(** The keys of the label set the specification lists for a service: project,
    service, version, working directory, config files and one-off, and the
    environment file when one was supplied. *)
Definition labelKeys (envFile : string) : gset string :=
  {[ProjectLabel; ServiceLabel; VersionLabel; WorkingDirLabel; ConfigFilesLabel;
    OneoffLabel]} ∪ (if decide (envFile ≠ "") then {[EnvironmentFileLabel]} else ∅).

(** The loop [for i, s := range proj.Services { ...; proj.Services[i] = s }]. *)
Definition stampLabels (proj : Project.t) (compiledOptions : ProjectOptions.t)
  : Project.t :=
  Project.setServices
    (map (fun s => ServiceConfig.setCustomLabels
                     (serviceLabels proj (ProjectOptions.EnvFile compiledOptions) s) s)
         (Project.Services proj))
    proj.

Definition compileProject : M (error + Project.t) :=
  d ← getCtl;
  w ← getWorld;
  let projectOptions :=
    projectOptions d ++ [cli_WithName (name d); cli_WithDefaultConfigPath] in
  match cli_NewProjectOptions (configs d) projectOptions w with
  | inl err => mret (inl err)
  | inr compiledOptions =>
      match cli_ProjectFromOptions compiledOptions w with
      | inl err => mret (inl (errExternal err))
      | inr proj => mret (inr (stampLabels proj compiledOptions))
      end
  end.

(** *** [Down] and [Up] *)

(** The [options] of [Down]: the compiled project (nil before the first
    [Up]) and the zero values, changed by the options given. *)
Definition downOptions (d : dockerCompose) (opts : list StackDownOption)
  : DownOptions.t :=
  foldl (fun o opt => applyToStackDown opt o)
        (DownOptions.mk false (project d) "") opts.

Definition Down (opts : list StackDownOption) : M (option error) :=
  d ← getCtl;
  let options := downOptions d opts in
  err ← invoke (CallDown (name d) options)
               (Service_Down (composeService d) (name d) options);
  mret (errExternal <$> err).

(** What [Up] derives from its options and the compiled project before it
    calls the gateway: [upOptions] (the defaults changed by the options
    given), then the narrowed project (stored in [d.project]) and the
    [api.UpOptions] of the call.  [upOptions.Project] points to the
    controller's project, so [Start.Project] is the narrowed project. *)
Definition upOptionsOf (opts : list StackUpOption) (proj : Project.t)
  : stackUpOptions.t :=
  foldl (fun o opt => applyToStackUp opt o)
        (stackUpOptions.mk (Project_ServiceNames proj)
           RecreateDiverged RecreateDiverged false false) opts.

Definition upRequest (opts : list StackUpOption) (proj : Project.t)
  : Project.t * UpOptions.t :=
  let upOptions := upOptionsOf opts proj in
  let '(services, filteredServices) :=
    upFilter (stackUpOptions.Services upOptions) (Project.Services proj) in
  let proj := Project.setServices filteredServices proj in
  (proj,
   UpOptions.mk
     (CreateOptions.mk services
        (stackUpOptions.Recreate upOptions)
        (stackUpOptions.RecreateDependencies upOptions)
        (stackUpOptions.RemoveOrphans upOptions))
     (StartOptions.mk (Some proj) (stackUpOptions.Wait upOptions))).

Definition Up (opts : list StackUpOption) : M (option error) :=
  r ← compileProject;
  match r with
  | inl err => modifyCtl (setProject None);; mret (Some err)
  | inr proj =>
      let '(proj, options) := upRequest opts proj in
      modifyCtl (setProject (Some proj));;
      d ← getCtl;
      err ← invoke (CallUp proj options)
                   (Service_Up (composeService d) proj options);
      match err with
      | Some err => mret (Some (errExternal err))
      | None =>
          if decide (size (waitStrategies d) = 0) then mret None
          else readinessFanOut (waitStrategies d)
      end
  end.

(** The state once [Up] has compiled [proj] and its call to the gateway has
    left the world as [w]: the narrowed project is stored and the call is
    logged. *)
Definition upIssued (st : State) (opts : list StackUpOption) (proj : Project.t)
    (w : World) : State :=
  {| ctl := setProject (Some (upRequest opts proj).1) (ctl st); world := w;
     calls := calls st ++ [CallUp (upRequest opts proj).1 (upRequest opts proj).2] |}.

(** The state after a list-query for [svcName] that left the world as [w]:
    the controller is as before and the query is logged. *)
Definition queried (st : State) (svcName : string) (w : World) : State :=
  {| ctl := ctl st; world := w;
     calls := calls st ++ [CallContainerList (listOptionsFor (name (ctl st)) svcName)] |}.

(** The number of list-queries among the calls made to the collaborators. *)
Definition isListQuery (c : Call) : bool :=
  match c with CallContainerList _ => true | _ => false end.

Definition listQueries (cs : list Call) : nat :=
  length (List.filter isListQuery cs).

End Controller.

(** ** The last option of a kind

    What the lists of options given to [Up] and [Down] say about each field:
    the value carried by the last option of the kind, if there is one. *)
Definition lastRunServices (opts : list StackUpOption) : option (list string) :=
  last (omap (fun opt => match opt with RunServices l => Some l | _ => None end) opts).

Definition lastRemoveOrphansUp (opts : list StackUpOption) : option bool :=
  last (omap (fun opt => match opt with RemoveOrphansUp b => Some b | _ => None end) opts).

Definition lastWait (opts : list StackUpOption) : option bool :=
  last (omap (fun opt => match opt with Wait b => Some b | _ => None end) opts).

Definition lastRemoveOrphansDown (opts : list StackDownOption) : option bool :=
  last (omap (fun opt => match opt with RemoveOrphansDown b => Some b | _ => None end) opts).

(** The image policy a [RemoveImages] value stands for; values other than the
    two constants stand for none. *)
Definition imagesOf (ri : Z) : option string :=
  if (ri =? RemoveImagesAll)%Z then Some "all"
  else if (ri =? RemoveImagesLocal)%Z then Some "local"
  else None.

Definition lastImages (opts : list StackDownOption) : option string :=
  last (omap (fun opt => match opt with RemoveImages ri => imagesOf ri | _ => None end) opts).

(** ** Options of the stack: files, identifier, readers *)

Module composeStackOptions.
Record t : Type := mk {
  Identifier : string;
  Paths : list string
}.
End composeStackOptions.

(** [ComposeStackFiles.applyToComposeStack]. *)
Definition ComposeStackFiles_apply (f : list string) (o : composeStackOptions.t)
  : composeStackOptions.t :=
  composeStackOptions.mk (composeStackOptions.Identifier o) f.

(** [StackIdentifier.applyToComposeStack] and [StackIdentifier.String]. *)
Definition StackIdentifier_apply (f : string) (o : composeStackOptions.t)
  : composeStackOptions.t :=
  composeStackOptions.mk f (composeStackOptions.Paths o).

Definition StackIdentifier_String (f : string) : string := f.

(** A byte of a Go string is a character here; [byte(z)] keeps the low eight
    bits. *)
Definition byte_of_Z (z : Z) : ascii := ascii_of_N (Z.to_N (Z.land z 255)).

(** [hash/fnv]: the offset basis of the 32-bit hash, and [New32a().Sum(b)],
    which appends the four bytes of the current hash value, here that of a
    fresh hash, to [b]. *)
Definition fnv_offset32 : Z := 2166136261.

Definition fnv_New32a_Sum (b : list ascii) : list ascii :=
  let v := fnv_offset32 in
  b ++ [byte_of_Z (Z.shiftr v 24); byte_of_Z (Z.shiftr v 16);
        byte_of_Z (Z.shiftr v 8); byte_of_Z v].

(** [fmt.Sprintf("%x", b)] on a byte slice: two lower-case hexadecimal digits
    per byte. *)
Definition hexDigit (n : N) : ascii :=
  match String.get (N.to_nat n) "0123456789abcdef" with
  | Some c => c
  | None => "0"%char
  end.

Fixpoint hexString (b : list ascii) : string :=
  match b with
  | [] => ""
  | c :: rest =>
      String (hexDigit (N_of_ascii c / 16))
        (String (hexDigit (N_of_ascii c mod 16)) (hexString rest))
  end.

(** The slice expression [s[:n]] on a string. *)
Definition sliceTo (n : nat) (s : string) : outcome string :=
  if decide (n <= String.length s) then Returns (String.substring 0 n s)
  else Panics panicSliceBounds.

(** [projectHash] in [ComposeStackReaders.applyToComposeStack]:
    [fmt.Sprintf("%x", fnv.New32a().Sum([]byte(currentDir)))[:32]]. *)
Definition projectHash (currentDir : string) : outcome string :=
  sliceTo 32 (hexString (fnv_New32a_Sum (list_ascii_of_string currentDir))).

(** An [io.Reader], by what [io.ReadAll] gets from it: an error or the
    content. *)
Definition Reader : Type := string + string.

Definition io_ReadAll (src : Reader) : string + string := src.

(** A reader that [io.ReadAll] reads without error. *)
Definition readable (src : Reader) : Prop := exists content, src = inr content.

(** What staging uses from packages [os] and [path/filepath], on a host of
    state [World]. *)
Class Host (World : Type) : Type := {
  os_Getwd : World -> string + string;
  os_TempDir : World -> string;
  os_MkdirAll : string -> World -> option string * World;
  os_WriteFile : string -> string -> World -> option string * World;
  filepath_Base : string -> string;
  filepath_Join : list string -> string
}.

Section Staging.
Context {World : Type} `{Host World}.

(** [fmt.Sprintf("docker-compose-%d.yaml", idx)] joined to the directory. *)
Definition stagedName (tmpDir : string) (idx : nat) : string :=
  filepath_Join [tmpDir; ("docker-compose-" ++ pretty idx ++ ".yaml")%string].

(** The loop over the readers, from index [idx] on: a reader that cannot be
    read panics, a file that cannot be written is skipped. *)
Fixpoint stageLoop (tmpDir : string) (idx : nat) (r : list Reader)
    (filePaths : list string) (w : World) : outcome (list string) * World :=
  match r with
  | [] => (Returns filePaths, w)
  | src :: rest =>
      match io_ReadAll src with
      | inl err => (Panics (panicError err), w)
      | inr content =>
          let filename := stagedName tmpDir idx in
          match os_WriteFile filename content w with
          | (Some _, w') => stageLoop tmpDir (S idx) rest filePaths w'
          | (None, w') => stageLoop tmpDir (S idx) rest (filePaths ++ [filename]) w'
          end
      end
  end.

(** The staging directory for working directory [currentDir]. *)
Definition stagingDir (currentDir : string) (w : World) : outcome string :=
  let projectName := filepath_Base currentDir in
  match projectHash currentDir with
  | Panics p => Panics p
  | Returns projectHash =>
      Returns (filepath_Join [os_TempDir w; "testcontainers-go";
                              (projectName ++ "-" ++ projectHash)%string])
  end.

(** [ComposeStackReaders.applyToComposeStack]. *)
Definition ComposeStackReaders_apply (r : list Reader) (o : composeStackOptions.t)
    (w : World) : outcome composeStackOptions.t * World :=
  match os_Getwd w with
  | inl err => (Panics (panicError err), w)
  | inr currentDir =>
      match stagingDir currentDir w with
      | Panics p => (Panics p, w)
      | Returns tmpDir =>
          match os_MkdirAll tmpDir w with
          | (Some err, w') => (Panics (panicError err), w')
          | (None, w') =>
              match stageLoop tmpDir 0 r [] w' with
              | (Panics p, w'') => (Panics p, w'')
              | (Returns filePaths, w'') =>
                  (Returns (composeStackOptions.mk (composeStackOptions.Identifier o)
                              filePaths), w'')
              end
          end
      end
  end.

End Staging.

(** ** A small concrete stack

    Collaborators simple enough to run the controller on: the world is the
    number of requests the container engine has served, the compiler turns
    every config path into a service of that name, [range] visits a map in
    the order of [map_to_list], and the goroutines of the readiness fan-out
    run in turn with strategies that are ready at once. *)
Module Scenario.

Definition labels : ComposeLabels := {|
  ProjectLabel := "com.docker.compose.project";
  ServiceLabel := "com.docker.compose.service";
  VersionLabel := "com.docker.compose.version";
  WorkingDirLabel := "com.docker.compose.project.working_dir";
  ConfigFilesLabel := "com.docker.compose.project.config_files";
  OneoffLabel := "com.docker.compose.oneoff";
  EnvironmentFileLabel := "com.docker.compose.project.environment_file";
  ComposeVersion := "2.12.2"
|}.

Definition compose : Collaborators nat := {|
  cli_WithOsEnv := fun o _ => (None, o);
  cli_WithName := fun n o _ =>
    (None, ProjectOptions.mk n (ProjectOptions.WorkingDir o)
             (ProjectOptions.ConfigPaths o) (ProjectOptions.Environment o)
             (ProjectOptions.EnvFile o));
  cli_WithDefaultConfigPath := fun o _ => (None, o);
  cli_ProjectFromOptions := fun o _ =>
    inr (Project.mk (ProjectOptions.Name o) "/work" (ProjectOptions.ConfigPaths o)
           (map (fun p => ServiceConfig.mk p "image" ∅) (ProjectOptions.ConfigPaths o)));
  Project_ServiceNames := fun p => sort_Strings (map ServiceConfig.Name (Project.Services p));
  rangeOrder := map_to_list
|}.

(** The readiness fan-out of [Up] (the goroutines started in the loop over
    [d.waitStrategies], joined by [errGrp.Wait]) on a run where the
    goroutines take their turns one after the other, in the order of
    [map_to_list], and every strategy reports ready at once: each one calls
    [lookupContainer] for its service and returns its error, if any; the
    result is the first error. *)
Fixpoint readyInTurn (svcs : list string) : @M nat unit (option error) :=
  match svcs with
  | [] => mret None
  | svc :: rest =>
      target ← @lookupContainer nat unit labels svc;
      later ← readyInTurn rest;
      match target with
      | inl err => mret (Some err)
      | inr _ => mret later
      end
  end.

Definition inTurn : @Readiness nat unit :=
  fun waitStrategies => readyInTurn (map_to_list waitStrategies).*1.

(** An engine that answers every list-query with [answer]. *)
Definition engine (answer : string + list Container.t) : @APIClient nat :=
  {| ContainerList := fun _ w => (answer, S w) |}.

(** A gateway whose [Up] and [Down] return the given results. *)
Definition gateway (upResult downResult : option string) : @api_Service nat :=
  {| Service_Up := fun _ _ w => (upResult, S w);
     Service_Down := fun _ _ w => (downResult, S w) |}.

(** A freshly configured controller: nothing compiled, nothing cached. *)
Definition stack (gw : @api_Service nat) (eng : @APIClient nat)
    (files : list string) : @dockerCompose nat unit :=
  {| name := "stack"; configs := files; waitStrategies := ∅; containers := ∅;
     composeService := gw; dockerClient := eng; projectOptions := [];
     project := None |}.

Definition boot (d : @dockerCompose nat unit) : @State nat unit :=
  {| ctl := d; world := 0; calls := [] |}.

Definition svc (n : string) : ServiceConfig.t := ServiceConfig.mk n "image" ∅.

(** Two containers of the service ["web"], as the engine describes them. *)
Definition web : Container.t := Container.mk "c0ffee" ["/stack-web-1"].
Definition twin : Container.t := Container.mk "decaf" ["/stack-web-2"].

(** The project compiled for the config paths ["db"] and ["api"]. *)
Definition compiled : Project.t :=
  @stampLabels labels
    (Project.mk "stack" "/work" ["db"; "api"] [svc "db"; svc "api"])
    (ProjectOptions.mk "stack" "" ["db"; "api"] ∅ "").


(** A host whose working directory is [cwd]; its state is the list of the
    files written, newest first.  [writable] says which paths can be
    written. *)
Definition host (cwd : string) (writable : string -> bool)
  : Host (list (string * string)) := {|
  os_Getwd := fun _ => inr cwd;
  os_TempDir := fun _ => "/tmp";
  os_MkdirAll := fun _ w => (None, w);
  os_WriteFile := fun f c w =>
    if writable f then (None, (f, c) :: w) else (Some "permission denied", w);
  filepath_Base := fun _ => "project";
  filepath_Join := String.concat "/"
|}.

(** A working directory, and the staging directory [ComposeStackReaders]
    derives from it on these hosts. *)
Definition homeDir : string := "/home/goforbroke/project".

Definition homeStaging : string :=
  "/tmp/testcontainers-go/project-2f686f6d652f676f666f7262726f6b65".

(** The state after a first lookup for ["web"] on an engine that reports the
    two containers: the handle of [web] is cached. *)
Definition warmed (gw : @api_Service nat) (files : list string) : @State nat unit :=
  (@ServiceContainer nat unit labels "web"
     (boot (stack gw (engine (inr [web; twin])) files))).2.

End Scenario.

(** * Properties *)

(** ** The order on strings, [sort.Strings] and [sort.SearchStrings] *)

Section StringOrder.
Lemma string_le_cases a b : string_le a b <-> String.compare a b = Lt \/ a = b.
Proof.
  unfold string_le, String.leb. split.
  - destruct (String.compare a b) eqn:E; intros; try discriminate; auto.
    right. by apply String.compare_eq_iff.
  - intros [->| ->]; [done|].
    assert (String.compare b b = Eq) as -> by by apply String_as_OT.cmp_eq. done.
Qed.

Lemma strLess_lt a b : strLess a b = true <-> String.compare a b = Lt.
Proof.
  unfold strLess, String.ltb. destruct (String.compare a b); split; congruence.
Qed.

#[global] Instance string_le_trans : Transitive string_le.
Proof.
  intros a b c [Hab| ->]%string_le_cases [Hbc| ->]%string_le_cases;
    apply string_le_cases; auto.
  left. apply String_as_OT.cmp_lt.
  eapply String_as_OT.lt_trans; by apply String_as_OT.cmp_lt.
Qed.

#[global] Instance string_le_total : Total string_le.
Proof. intros a b. apply String.leb_total. Qed.

#[global] Instance string_le_antisym : AntiSymm eq string_le.
Proof. intros a b Hab Hba. by apply String.leb_antisym. Qed.

Lemma strLess_not_le a b : strLess a b = true <-> ~ string_le b a.
Proof.
  rewrite strLess_lt. unfold string_le, String.leb.
  rewrite (String.compare_antisym a b).
  destruct (String.compare b a); simpl; split; try congruence; try done.
Qed.

Lemma strLess_false_le a b : strLess a b = false <-> string_le b a.
Proof.
  destruct (strLess a b) eqn:E.
  - apply strLess_not_le in E. split; [done|tauto].
  - split; [|done]. intros _. destruct (decide (string_le b a)); [done|].
    apply strLess_not_le in n. congruence.
Qed.
End StringOrder.

Section Search.
(** [sort.Search] on a predicate that, below [n], stays true once it is true. *)
Lemma search_loop_spec (f : nat -> bool) (n i j : nat) :
  (forall k k', k <= k' -> k' < n -> f k = true -> f k' = true) ->
  i <= j -> j <= n ->
  (forall k, k < i -> f k = false) ->
  (forall k, j <= k -> k < n -> f k = true) ->
  i <= search_loop f i j <= j /\
  (forall k, k < search_loop f i j -> f k = false) /\
  (forall k, search_loop f i j <= k -> k < n -> f k = true).
Proof.
  intros Hmono. funelim (search_loop f i j); intros Hij Hjn Hlo Hhi; clear Heqcall.
  - pose proof (Nat.div_mod_eq (i + j) 2) as Hd.
    pose proof (Nat.mod_upper_bound (i + j) 2) as Hm.
    destruct (f ((i + j) / 2)) eqn:Hf.
    + destruct (H n Hmono) as (Hr & Hl & Hh); [lia|lia|done| |].
      { intros k Hk1 Hk2. by apply (Hmono ((i + j) / 2)). }
      split; [lia|done].
    + destruct (H0 n Hmono) as (Hr & Hl & Hh); [lia|lia| |done|].
      { intros k Hk. destruct (f k) eqn:Hfk; [|done].
        rewrite <- Hf. symmetry. apply (Hmono k); [lia|lia|done]. }
      split; [lia|done].
  - assert (i = j) as -> by lia. repeat split; auto.
Qed.
End Search.

Section Filtering.
Implicit Types (names requested : list string) (services : list ServiceConfig.t).

Lemma string_le_refl a : string_le a a.
Proof. apply string_le_cases. by right. Qed.

Lemma StronglySorted_lookup_le names i j u v :
  StronglySorted string_le names -> i <= j ->
  names !! i = Some u -> names !! j = Some v -> string_le u v.
Proof.
  intros Hs. revert i j. induction Hs as [|a l Hs IH Hall]; intros i j Hij Hi Hj.
  - by rewrite lookup_nil in Hi.
  - destruct i as [|i], j as [|j]; simplify_eq/=.
    + apply string_le_refl.
    + rewrite Forall_forall in Hall. apply Hall. by eapply list_elem_of_lookup_2.
    + lia.
    + apply (IH i j); [lia|done..].
Qed.

Lemma sort_Strings_sorted requested : StronglySorted string_le (sort_Strings requested).
Proof. apply StronglySorted_merge_sort; apply _. Qed.

Lemma sort_Strings_perm requested : sort_Strings requested ≡ₚ requested.
Proof. apply merge_sort_Permutation. Qed.

Lemma sort_Strings_unique requested l :
  StronglySorted string_le l -> l ≡ₚ requested -> l = sort_Strings requested.
Proof.
  intros Hl Hp. apply (StronglySorted_unique string_le); [done|apply sort_Strings_sorted|].
  by rewrite sort_Strings_perm.
Qed.

Lemma sort_SearchStrings_spec names x :
  StronglySorted string_le names ->
  let idx := sort_SearchStrings names x in
  idx <= length names /\
  (forall k n, k < idx -> names !! k = Some n -> strLess n x = true) /\
  (forall k n, idx <= k -> names !! k = Some n -> string_le x n).
Proof.
  intros Hs idx. unfold idx, sort_SearchStrings, sort_Search.
  set (f := fun i => negb (strLess (names !!! i) x)).
  destruct (search_loop_spec f (length names) 0 (length names)) as (Hr & Hlo & Hhi).
  - intros k k' Hk Hk' Hf. unfold f in *.
    destruct (lookup_lt_is_Some_2 names k') as [v Hv]; [done|].
    destruct (lookup_lt_is_Some_2 names k) as [u Hu]; [lia|].
    rewrite (list_lookup_total_correct _ _ _ Hv).
    rewrite (list_lookup_total_correct _ _ _ Hu) in Hf.
    apply negb_true_iff, strLess_false_le in Hf.
    apply negb_true_iff, strLess_false_le.
    apply (string_le_trans x u v); [done|].
    by apply (StronglySorted_lookup_le names k k').
  - lia.
  - done.
  - lia.
  - lia.
  - split; [lia|]. split.
    + intros k n Hk Hn. specialize (Hlo k Hk). unfold f in Hlo.
      rewrite (list_lookup_total_correct _ _ _ Hn) in Hlo.
      by apply negb_false_iff in Hlo.
    + intros k n Hk Hn. specialize (Hhi k Hk (lookup_lt_Some _ _ _ Hn)). unfold f in Hhi.
      rewrite (list_lookup_total_correct _ _ _ Hn) in Hhi.
      by apply negb_true_iff, strLess_false_le in Hhi.
Qed.

Lemma requestedIn_spec names s :
  StronglySorted string_le names ->
  requestedIn names s = true <-> ServiceConfig.Name s ∈ names.
Proof.
  intros Hs. unfold requestedIn.
  destruct (sort_SearchStrings_spec names (ServiceConfig.Name s) Hs) as (Hlen & Hlo & Hhi).
  set (idx := sort_SearchStrings names (ServiceConfig.Name s)) in *.
  split.
  - destruct (names !! idx) as [n|] eqn:Hn; [|done].
    intros ->%bool_decide_eq_true. by eapply list_elem_of_lookup_2.
  - intros [k Hk]%list_elem_of_lookup_1.
    destruct (decide (k < idx)) as [Hlt|Hge].
    + specialize (Hlo _ _ Hlt Hk). apply strLess_not_le in Hlo.
      destruct Hlo. apply string_le_refl.
    + destruct (lookup_lt_is_Some_2 names idx) as [n Hn].
      { apply lookup_lt_Some in Hk. lia. }
      rewrite Hn. apply bool_decide_eq_true.
      apply (anti_symm string_le).
      * eapply (StronglySorted_lookup_le names idx k); [done|lia|done..].
      * by apply (Hhi idx).
Qed.

Lemma filterLoop_filter names services :
  filterLoop names services = filter (fun s => requestedIn names s = true) services.
Proof.
  unfold filterLoop.
  enough (forall acc, foldl (fun filteredServices s =>
            if requestedIn names s then filteredServices ++ [s] else filteredServices)
            acc services = acc ++ filter (fun s => requestedIn names s = true) services)
    as Hgen by apply (Hgen []).
  induction services as [|s services IH]; intros acc; simpl.
  - by rewrite app_nil_r.
  - rewrite IH, filter_cons. destruct (requestedIn names s) eqn:E.
    + rewrite decide_True by done. by rewrite <- app_assoc.
    + rewrite decide_False by done. done.
Qed.

Lemma upFilter_narrowed requested services :
  length requested ≠ length services ->
  upFilter requested services =
    (sort_Strings requested,
     filter (fun s => ServiceConfig.Name s ∈ requested) services).
Proof.
  intros Hlen. unfold upFilter. rewrite decide_True by done. f_equal.
  rewrite filterLoop_filter. apply list_filter_iff. intros s.
  rewrite requestedIn_spec by apply sort_Strings_sorted.
  by rewrite sort_Strings_perm.
Qed.
End Filtering.

(** ** Narrowing the project in [Up] *)

Section Narrowing.
Implicit Types (requested : list string) (services : list ServiceConfig.t).

Lemma upFilter_sublist requested services :
  sublist (upFilter requested services).2 services.
Proof.
  destruct (decide (length requested ≠ length services)) as [Hne|Heq].
  - rewrite upFilter_narrowed by done. apply sublist_filter.
  - unfold upFilter. by rewrite decide_False.
Qed.

Lemma upFilter_keeps_requested requested services s :
  s ∈ services -> ServiceConfig.Name s ∈ requested ->
  s ∈ (upFilter requested services).2.
Proof.
  intros Hs Hn. destruct (decide (length requested ≠ length services)) as [Hne|Heq].
  - rewrite upFilter_narrowed by done. simpl. by apply list_elem_of_filter.
  - unfold upFilter. by rewrite decide_False.
Qed.

(** C3. When the number of requested names differs from the number of
    services of the compiled project, the narrowing in [Up] keeps exactly
    the services whose name is requested, in the order of the project: the
    result is the project's list filtered by membership of the name in the
    request, hence a sublist of it, and it repeats no name unless the
    project did. *)
Theorem upFilter_subset_in_order requested services :
  length requested ≠ length services ->
  (upFilter requested services).2 =
    filter (fun s => ServiceConfig.Name s ∈ requested) services
  /\ sublist (upFilter requested services).2 services
  /\ (forall s, s ∈ (upFilter requested services).2 <->
                s ∈ services /\ ServiceConfig.Name s ∈ requested)
  /\ (NoDup (ServiceConfig.Name <$> services) ->
      NoDup (ServiceConfig.Name <$> (upFilter requested services).2)).
Proof.
  intros Hne. split; [by rewrite upFilter_narrowed|].
  split; [apply upFilter_sublist|]. split.
  - intros s. rewrite upFilter_narrowed by done. simpl.
    rewrite list_elem_of_filter. tauto.
  - intros Hnd. apply (sublist_NoDup _ (ServiceConfig.Name <$> services)); [done|].
    apply fmap_sublist, upFilter_sublist.
Qed.

Lemma upFilter_subset_in_order_witness :
  (upFilter ["D"; "B"] (Scenario.svc <$> ["A"; "B"; "C"; "D"])).2
  = Scenario.svc <$> ["B"; "D"].
Proof.
  destruct (upFilter_subset_in_order ["D"; "B"] (Scenario.svc <$> ["A"; "B"; "C"; "D"]))
    as [-> _]; [simpl; lia|].
  reflexivity.
Defined.

(** C4. A requested name that no service of the compiled project bears is
    dropped without an error: the narrowing is a total function, it adds no
    service (its result is a sublist of the project's services, so none of
    them bears the unknown name), and every service whose name is requested
    is kept. *)
Theorem upFilter_unknown_dropped requested services ghost :
  ghost ∈ requested ->
  (ghost ∉ ServiceConfig.Name <$> services) ->
  (ghost ∉ ServiceConfig.Name <$> (upFilter requested services).2)
  /\ sublist (upFilter requested services).2 services
  /\ (forall s, s ∈ services -> ServiceConfig.Name s ∈ requested ->
                s ∈ (upFilter requested services).2).
Proof.
  intros _ Hghost. split; [|split].
  - intros Hin. apply Hghost.
    eapply elem_of_sublist; [exact Hin|]. apply fmap_sublist, upFilter_sublist.
  - apply upFilter_sublist.
  - intros s. apply upFilter_keeps_requested.
Qed.

Lemma upFilter_unknown_dropped_witness :
  (upFilter ["A"; "ghost"] [Scenario.svc "A"]).2 = [Scenario.svc "A"]
  /\ ("ghost" ∉ ServiceConfig.Name <$> (upFilter ["A"; "ghost"] [Scenario.svc "A"]).2).
Proof.
  split; [reflexivity|].
  apply (upFilter_unknown_dropped ["A"; "ghost"] [Scenario.svc "A"] "ghost").
  - apply (bool_decide_unpack _). by vm_compute.
  - apply (bool_decide_unpack _). by vm_compute.
Defined.

(** C5. When as many names are requested as the compiled project has
    services, [Up] skips the narrowing: the requested list is not sorted and
    the project's services are left as compiled, whatever the names are. *)
Theorem upFilter_same_length requested services :
  length requested = length services ->
  upFilter requested services = (requested, services).
Proof. intros Heq. unfold upFilter. by rewrite decide_False by (by intros ?). Qed.

Lemma upFilter_same_length_witness :
  upFilter ["ghost"; "B"] (Scenario.svc <$> ["A"; "B"])
  = (["ghost"; "B"], Scenario.svc <$> ["A"; "B"]).
Proof. apply upFilter_same_length. reflexivity. Defined.
End Narrowing.

(** ** The container cache *)

Section Cache.
Context {World Strategy : Type} `{ComposeLabels}.
Implicit Types (st : @State World Strategy) (svcName : string).

Lemma lookupContainer_hit st svcName c :
  containers (ctl st) !! svcName = Some c ->
  lookupContainer svcName st = (inr c, st).
Proof.
  intros Hc. unfold lookupContainer, mbind, M_bind, getCtl. by rewrite Hc.
Qed.

Lemma lookupContainer_miss st svcName r w :
  containers (ctl st) !! svcName = None ->
  ContainerList (dockerClient (ctl st)) (listOptionsFor (name (ctl st)) svcName)
                (world st) = (r, w) ->
  lookupContainer svcName st =
    match r with
    | inl err => (inl (errExternal err), queried st svcName w)
    | inr [] => (inl (errNoContainer svcName), queried st svcName w)
    | inr (c :: _) =>
        (inr (handleOf (ctl st) c),
         {| ctl := setContainers (<[svcName := handleOf (ctl st) c]> (containers (ctl st)))
                                 (ctl st);
            world := w; calls := calls (queried st svcName w) |})
    end.
Proof.
  intros Hc Hr. unfold lookupContainer, mbind, M_bind, getCtl, invoke. rewrite Hc.
  rewrite Hr. by destruct r as [err|[|c cs]].
Qed.

Lemma listQueries_snoc (cs : list Call) o :
  listQueries (cs ++ [CallContainerList o]) = S (listQueries cs).
Proof.
  unfold listQueries. rewrite List.filter_app, length_app. simpl. lia.
Qed.

Lemma lookupContainer_keeps_entries st other svcName c :
  containers (ctl st) !! svcName = Some c ->
  containers (ctl (lookupContainer other st).2) !! svcName = Some c.
Proof.
  intros Hc. destruct (containers (ctl st) !! other) as [c'|] eqn:Ho.
  - by rewrite (lookupContainer_hit st other c').
  - destruct (ContainerList (dockerClient (ctl st))
                (listOptionsFor (name (ctl st)) other) (world st)) as [r w] eqn:Hr.
    rewrite (lookupContainer_miss st other r w Ho Hr).
    destruct r as [err|[|d ds]]; simpl; try done.
    rewrite lookup_insert_ne; [done|]. intros ->. congruence.
Qed.

Lemma lookups_keep_entries svcNames st svcName c :
  containers (ctl st) !! svcName = Some c ->
  containers (ctl (lookups svcNames st).2) !! svcName = Some c.
Proof.
  revert st. induction svcNames as [|n ns IH]; intros st Hc; [done|].
  simpl. unfold mbind, M_bind, ServiceContainer.
  pose proof (lookupContainer_keeps_entries st n svcName c Hc) as Hc'.
  destruct (lookupContainer n st) as [r st']. by apply IH.
Qed.

Lemma app_singleton_neq {A} (l : list A) x : l ≠ l ++ [x].
Proof. intros Heq. apply (f_equal length) in Heq. rewrite length_app in Heq. simpl in Heq. lia. Qed.


(** C6, as amended. When a [ServiceContainer] lookup succeeds, the handle is
    in the cache afterwards and the lookup issued at most one list-query;
    every later lookup for the same name, whatever other lookups come in
    between, returns that handle and leaves the state, hence the log of
    calls, as it is.  So two sequential lookups of which the first succeeds
    issue at most one list-query. *)
Theorem ServiceContainer_cache_reuse st svcName c st1 :
  ServiceContainer svcName st = (inr c, st1) ->
  containers (ctl st1) !! svcName = Some c
  /\ listQueries (calls st1) <= S (listQueries (calls st))
  /\ ServiceContainer svcName st1 = (inr c, st1)
  /\ (forall others,
        ServiceContainer svcName (lookups others st1).2
        = (inr c, (lookups others st1).2))
  /\ listQueries (calls (ServiceContainer svcName st1).2) <= S (listQueries (calls st)).
Proof.
  unfold ServiceContainer. intros Hl.
  assert (containers (ctl st1) !! svcName = Some c
          /\ listQueries (calls st1) <= S (listQueries (calls st))) as [Hc Hq].
  { destruct (containers (ctl st) !! svcName) as [c'|] eqn:Hc.
    - rewrite (lookupContainer_hit st svcName c' Hc) in Hl.
      injection Hl as <- <-. split; [done|lia].
    - destruct (ContainerList (dockerClient (ctl st))
                  (listOptionsFor (name (ctl st)) svcName) (world st)) as [r w] eqn:Hr.
      rewrite (lookupContainer_miss st svcName r w Hc Hr) in Hl.
      destruct r as [err|[|d ds]]; try discriminate.
      injection Hl as <- <-. simpl. rewrite lookup_insert_eq, listQueries_snoc. done. }
  pose proof (lookupContainer_hit st1 svcName c Hc) as Hhit.
  repeat split; try done.
  - intros others. apply lookupContainer_hit. by apply lookups_keep_entries.
  - by rewrite Hhit.
Qed.

(** C10. When [lookupContainer] returns an error, whether the list-query
    failed or reported no container, the controller and with it the cache
    is exactly as before and holds no entry for the name, so the next
    lookup for the name queries the engine again. *)
Theorem lookupContainer_failure_keeps_cache st svcName e st1 :
  lookupContainer svcName st = (inl e, st1) ->
  ctl st1 = ctl st
  /\ containers (ctl st1) !! svcName = None
  /\ calls (lookupContainer svcName st1).2
     = calls st1 ++ [CallContainerList (listOptionsFor (name (ctl st1)) svcName)].
Proof.
  intros Hl.
  assert (ctl st1 = ctl st /\ containers (ctl st) !! svcName = None) as [Hctl Hc].
  { destruct (containers (ctl st) !! svcName) as [c'|] eqn:Hc.
    - by rewrite (lookupContainer_hit st svcName c' Hc) in Hl.
    - destruct (ContainerList (dockerClient (ctl st))
                  (listOptionsFor (name (ctl st)) svcName) (world st)) as [r w] eqn:Hr.
      rewrite (lookupContainer_miss st svcName r w Hc Hr) in Hl.
      destruct r as [err|[|d ds]]; try discriminate; by injection Hl as <- <-. }
  rewrite Hctl. repeat split; [done|].
  rewrite <- Hctl in Hc |- *.
  destruct (ContainerList (dockerClient (ctl st1))
              (listOptionsFor (name (ctl st1)) svcName) (world st1)) as [r w] eqn:Hr.
  rewrite (lookupContainer_miss st1 svcName r w Hc Hr).
  by destruct r as [err|[|d ds]].
Qed.

(** An entry enters the cache only with a successful lookup, under the name
    looked up. *)
Lemma lookupContainer_success_caches st svcName c st1 :
  lookupContainer svcName st = (inr c, st1) ->
  containers (ctl st1) = <[svcName := c]> (containers (ctl st)).
Proof.
  intros Hl. destruct (containers (ctl st) !! svcName) as [c'|] eqn:Hc.
  - rewrite (lookupContainer_hit st svcName c' Hc) in Hl.
    injection Hl as <- <-. by rewrite insert_id.
  - destruct (ContainerList (dockerClient (ctl st))
                (listOptionsFor (name (ctl st)) svcName) (world st)) as [r w] eqn:Hr.
    rewrite (lookupContainer_miss st svcName r w Hc Hr) in Hl.
    destruct r as [err|[|d ds]]; try discriminate. by injection Hl as <- <-.
Qed.

End Cache.

(** ** [Down] *)

Section Teardown.
Context {World Strategy : Type}.
Implicit Types (st : @State World Strategy).

(** [Down] issues its one call to the gateway and returns the gateway's
    result, whatever the controller's project is. *)
Lemma Down_run st opts r w :
  Service_Down (composeService (ctl st)) (name (ctl st))
               (downOptions (ctl st) opts) (world st) = (r, w) ->
  Down opts st =
    (errExternal <$> r,
     {| ctl := ctl st; world := w;
        calls := calls st ++ [CallDown (name (ctl st)) (downOptions (ctl st) opts)] |}).
Proof.
  intros Hr. unfold Down, mbind, M_bind, getCtl, invoke. by rewrite Hr.
Qed.

Lemma downOptions_Project (d : @dockerCompose World Strategy) opts :
  DownOptions.Project (downOptions d opts) = project d.
Proof.
  unfold downOptions. generalize false, "". generalize (project d).
  induction opts as [|o opts IH]; intros p b i; [done|]. simpl.
  destruct o as [ro|ri]; simpl; [apply IH|].
  destruct (ri =? RemoveImagesAll)%Z; [apply IH|].
  destruct (ri =? RemoveImagesLocal)%Z; apply IH.
Qed.

(** C1, as amended. On a controller on which [Up] was never called, [Down]
    does not fail by itself: it issues exactly one teardown call to the
    gateway, for the stack name and with options whose project is nil, and
    returns what the gateway returns. *)
Theorem Down_before_Up st opts r w :
  project (ctl st) = None ->
  Service_Down (composeService (ctl st)) (name (ctl st))
               (downOptions (ctl st) opts) (world st) = (r, w) ->
  DownOptions.Project (downOptions (ctl st) opts) = None
  /\ Down opts st =
     (errExternal <$> r,
      {| ctl := ctl st; world := w;
         calls := calls st ++ [CallDown (name (ctl st)) (downOptions (ctl st) opts)] |}).
Proof.
  intros Hp Hr. split; [by rewrite downOptions_Project|by apply Down_run].
Qed.
End Teardown.

(** ** [Up]: compilation, the call to the gateway, environment injection *)

Section UpClaims.
Context {World Strategy : Type} `{ComposeLabels} `{Collaborators World}.
Context `{!@Readiness World Strategy}.
Implicit Types (st : @State World Strategy) (options : ProjectOptions.t).

Lemma compileProject_state st : (compileProject st).2 = st.
Proof.
  unfold compileProject, mbind, M_bind, getCtl, getWorld.
  destruct (cli_NewProjectOptions _ _ _) as [err|o]; [done|].
  by destruct (cli_ProjectFromOptions _ _).
Qed.

Lemma Up_compile_error st opts err :
  (compileProject st).1 = inl err ->
  Up opts st =
    (Some err, {| ctl := setProject None (ctl st); world := world st; calls := calls st |}).
Proof.
  intros Hc. pose proof (compileProject_state st) as Hs.
  unfold Up, mbind, M_bind. destruct (compileProject st) as [r st']. simpl in *.
  by subst.
Qed.

(** The project [Up] stores and sends to the gateway is the compiled one
    with its services narrowed by [upFilter] for the requested names. *)
Lemma upRequest_project opts proj :
  (upRequest opts proj).1 =
    Project.setServices
      (upFilter (stackUpOptions.Services (upOptionsOf opts proj))
                (Project.Services proj)).2 proj
  /\ CreateOptions.Services (UpOptions.Create (upRequest opts proj).2) =
     (upFilter (stackUpOptions.Services (upOptionsOf opts proj))
               (Project.Services proj)).1.
Proof. unfold upRequest. by destruct (upFilter _ _). Qed.

Lemma Up_run st opts proj r w :
  (compileProject st).1 = inr proj ->
  Service_Up (composeService (ctl st)) (upRequest opts proj).1 (upRequest opts proj).2
             (world st) = (r, w) ->
  Up opts st =
    match r with
    | Some err => (Some (errExternal err), upIssued st opts proj w)
    | None =>
        if decide (size (waitStrategies (ctl st)) = 0) then (None, upIssued st opts proj w)
        else readinessFanOut (waitStrategies (ctl st)) (upIssued st opts proj w)
    end.
Proof.
  intros Hc Hr. pose proof (compileProject_state st) as Hs.
  unfold Up, mbind, M_bind. destruct (compileProject st) as [r' st']. simpl in *. subst.
  destruct (upRequest opts proj) as [proj' options] eqn:Hreq. simpl in *.
  unfold modifyCtl, getCtl, invoke. simpl. rewrite Hr.
  unfold upIssued. rewrite Hreq. simpl.
  destruct r; [done|]. by destruct (decide _).
Qed.

(** C8. Once the project is compiled: if the gateway's up call returns an
    error, [Up] returns that error and stops in the state reached by the call,
    where the narrowed project is stored, the call to the gateway is the only
    one added to the log and no list-query was issued; if the call succeeds
    and no readiness strategy is registered, [Up] returns success in that same
    state.  In neither case does the result depend on the readiness fan-out. *)
Theorem Up_gateway_outcome st opts proj r w :
  (compileProject st).1 = inr proj ->
  Service_Up (composeService (ctl st)) (upRequest opts proj).1 (upRequest opts proj).2
             (world st) = (r, w) ->
  (forall msg, r = Some msg ->
     Up opts st = (Some (errExternal msg), upIssued st opts proj w))
  /\ (r = None -> waitStrategies (ctl st) = ∅ ->
      Up opts st = (None, upIssued st opts proj w))
  /\ project (ctl (upIssued st opts proj w)) = Some (upRequest opts proj).1
  /\ listQueries (calls (upIssued st opts proj w)) = listQueries (calls st)
  /\ calls (upIssued st opts proj w)
     = calls st ++ [CallUp (upRequest opts proj).1 (upRequest opts proj).2].
Proof.
  intros Hc Hr. pose proof (Up_run st opts proj r w Hc Hr) as HUp.
  split; [by intros msg ->|]. split.
  - intros -> Hws. rewrite HUp, Hws, map_size_empty. by rewrite decide_True.
  - repeat split. unfold upIssued, listQueries. simpl.
    rewrite List.filter_app, length_app. simpl. lia.
Qed.

(** *** Environment injection *)

Lemma withEnvLoop_keeps entries options r options' k v :
  withEnvLoop entries options = (r, options') ->
  ProjectOptions.Environment options !! k = Some v ->
  ProjectOptions.Environment options' !! k = Some v.
Proof.
  revert options. induction entries as [|[k0 v0] entries IH]; intros options Hl Hk; simpl in Hl.
  - by injection Hl as <- <-.
  - destruct (ProjectOptions.Environment options !! k0) eqn:Hk0.
    + by injection Hl as <- <-.
    + apply IH in Hl; [done|]. simpl. rewrite lookup_insert_ne; [done|]. congruence.
Qed.

Lemma withEnvLoop_sets entries options options' k v :
  withEnvLoop entries options = (None, options') ->
  (k, v) ∈ entries ->
  ProjectOptions.Environment options' !! k = Some v.
Proof.
  revert options. induction entries as [|[k0 v0] entries IH]; intros options Hl Hin; simpl in Hl.
  - by apply elem_of_nil in Hin.
  - destruct (ProjectOptions.Environment options !! k0) eqn:Hk0; [done|].
    apply elem_of_cons in Hin as [[= -> ->]|Hin].
    + eapply withEnvLoop_keeps; [done|]. simpl. by rewrite lookup_insert_eq.
    + by eapply IH.
Qed.

Lemma withEnvLoop_duplicate entries options k :
  k ∈ entries.*1 ->
  is_Some (ProjectOptions.Environment options !! k) ->
  exists k' options',
    withEnvLoop entries options = (Some (errEnvAlreadySet k'), options')
    /\ k' ∈ entries.*1
    /\ (NoDup entries.*1 -> is_Some (ProjectOptions.Environment options !! k')).
Proof.
  revert options. induction entries as [|[k0 v0] entries IH]; intros options Hin Hk; simpl.
  - by apply elem_of_nil in Hin.
  - destruct (ProjectOptions.Environment options !! k0) eqn:Hk0.
    + exists k0, options. split; [done|]. split; [apply elem_of_cons; by left|].
      intros _. by rewrite Hk0.
    + simpl in Hin. apply elem_of_cons in Hin as [->|Hin].
      { rewrite Hk0 in Hk. by destruct Hk. }
      destruct (IH (ProjectOptions.setEnvironment
                      (<[k0:=v0]> (ProjectOptions.Environment options)) options) Hin)
        as (k' & options' & Hl & Hk' & Hset).
      { simpl. rewrite lookup_insert_ne; [done|]. intros ->. rewrite Hk0 in Hk. by destruct Hk. }
      exists k', options'. split; [done|]. split; [apply elem_of_cons; by right|].
      intros [Hk0' Hnd]%NoDup_cons. specialize (Hset Hnd). simpl in Hset.
      rewrite lookup_insert_ne in Hset; [done|]. by intros ->.
Qed.

Lemma withEnvLoop_fresh entries options :
  NoDup entries.*1 ->
  (forall k, k ∈ entries.*1 -> ProjectOptions.Environment options !! k = None) ->
  exists options', withEnvLoop entries options = (None, options')
    /\ dom (ProjectOptions.Environment options')
       = dom (ProjectOptions.Environment options) ∪ list_to_set entries.*1.
Proof.
  revert options. induction entries as [|[k0 v0] entries IH]; intros options Hnd Hfresh; simpl.
  - exists options. split; [done|]. by rewrite union_empty_r_L.
  - rewrite Hfresh by (simpl; apply elem_of_cons; by left).
    simpl in Hnd. apply NoDup_cons in Hnd as [Hk0 Hnd].
    destruct (IH (ProjectOptions.setEnvironment
                    (<[k0:=v0]> (ProjectOptions.Environment options)) options) Hnd)
      as (options' & Hl & Hdom).
    { intros k Hk. simpl. rewrite lookup_insert_ne by (intros ->; done).
      apply Hfresh. simpl. apply elem_of_cons. by right. }
    exists options'. split; [done|]. rewrite Hdom. simpl. rewrite dom_insert_L.
    by rewrite (comm_L (∪) {[k0]}), <- (assoc_L (∪)).
Qed.

Section RangeOrder.
(** Whatever order the runtime picks, [range env] visits each entry of [env]
    once. *)
Hypothesis rangeOrder_perm : forall m : gmap string string, rangeOrder m ≡ₚ map_to_list m.

Lemma rangeOrder_entry (m : gmap string string) k v :
  (k, v) ∈ rangeOrder m <-> m !! k = Some v.
Proof. by rewrite rangeOrder_perm, elem_of_map_to_list. Qed.

Lemma rangeOrder_key (m : gmap string string) k :
  k ∈ (rangeOrder m).*1 <-> is_Some (m !! k).
Proof.
  rewrite list_elem_of_fmap. split.
  - intros [[k' v] [-> Hin]]. apply rangeOrder_entry in Hin. by exists v.
  - intros [v Hv]. exists (k, v). split; [done|]. by apply rangeOrder_entry.
Qed.

Lemma rangeOrder_NoDup (m : gmap string string) : NoDup (rangeOrder m).*1.
Proof. rewrite rangeOrder_perm. apply NoDup_fst_map_to_list. Qed.

Lemma withEnv_then_duplicate (m1 m2 : gmap string string) k v1 options options1 w w' :
  m1 !! k = Some v1 -> is_Some (m2 !! k) ->
  withEnv m1 options w = (None, options1) ->
  ProjectOptions.Environment options1 !! k = Some v1
  /\ exists k' options2,
       withEnv m2 options1 w' = (Some (errEnvAlreadySet k'), options2)
       /\ is_Some (m2 !! k')
       /\ is_Some (ProjectOptions.Environment options1 !! k')
       /\ ProjectOptions.Environment options2 !! k = Some v1.
Proof.
  unfold withEnv. intros Hm1 Hm2 Hl1.
  assert (ProjectOptions.Environment options1 !! k = Some v1) as Hk.
  { eapply withEnvLoop_sets; [done|]. by apply rangeOrder_entry. }
  split; [done|].
  destruct (withEnvLoop_duplicate (rangeOrder m2) options1 k)
    as (k' & options2 & Hl2 & Hk' & Hset).
  { by apply rangeOrder_key. }
  { by rewrite Hk. }
  exists k', options2. split; [done|]. split; [by apply rangeOrder_key|].
  split; [apply Hset, rangeOrder_NoDup|]. by eapply withEnvLoop_keeps.
Qed.

(** C2, as amended. Two injections that share a key are both accepted by
    [WithEnv], which only queues an option and has no error to return.  The
    duplicate is met when the queued options are applied: after the first
    injection has been applied, applying the second fails with the "already
    set" error for a key of the second map that is set by then, and the shared
    key keeps its first value.  On a controller with no earlier option, that
    error is what the next [Up] returns, with no project stored and no call
    issued. *)
Theorem WithEnv_duplicate_key (d : @dockerCompose World Strategy)
    (m1 m2 : gmap string string) k v1 :
  m1 !! k = Some v1 -> is_Some (m2 !! k) ->
  projectOptions (WithEnv m2 (WithEnv m1 d)) = projectOptions d ++ [withEnv m1; withEnv m2]
  /\ (forall options w w' options1,
        withEnv m1 options w = (None, options1) ->
        ProjectOptions.Environment options1 !! k = Some v1
        /\ exists k' options2,
             withEnv m2 options1 w' = (Some (errEnvAlreadySet k'), options2)
             /\ is_Some (m2 !! k')
             /\ is_Some (ProjectOptions.Environment options1 !! k')
             /\ ProjectOptions.Environment options2 !! k = Some v1)
  /\ (projectOptions d = [] ->
      forall opts st, ctl st = WithEnv m2 (WithEnv m1 d) ->
        exists k', is_Some (m1 !! k') /\ is_Some (m2 !! k')
          /\ Up opts st =
             (Some (errEnvAlreadySet k'),
              {| ctl := setProject None (ctl st); world := world st; calls := calls st |})).
Proof.
  intros Hm1 Hm2. split; [|split].
  - unfold WithEnv. simpl. by rewrite <- app_assoc.
  - intros options w w' options1. by apply withEnv_then_duplicate.
  - intros Hd opts st Hctl.
    set (o0 := ProjectOptions.mk "" "" (configs (ctl st)) ∅ "").
    destruct (withEnvLoop_fresh (rangeOrder m1) o0) as (o1 & Hl1 & Hdom).
    { apply rangeOrder_NoDup. }
    { intros k0 _. apply lookup_empty. }
    destruct (withEnvLoop_duplicate (rangeOrder m2) o1 k) as (k' & o2 & Hl2 & Hk' & Hset).
    { by apply rangeOrder_key. }
    { exists v1. eapply withEnvLoop_sets; [done|]. by apply rangeOrder_entry. }
    exists k'. split; [|split].
    + specialize (Hset (rangeOrder_NoDup m2)).
      apply elem_of_dom in Hset. rewrite Hdom in Hset. simpl in Hset.
      apply elem_of_union in Hset as [Hset|Hset].
      { apply elem_of_dom in Hset. simpl in Hset. rewrite lookup_empty in Hset.
        by destruct Hset. }
      apply elem_of_list_to_set in Hset. by apply rangeOrder_key.
    + by apply rangeOrder_key.
    + apply Up_compile_error.
      unfold compileProject, mbind, M_bind, getCtl, getWorld. simpl.
      rewrite Hctl. unfold WithEnv at 1 2. simpl. rewrite Hd. simpl.
      unfold cli_NewProjectOptions. simpl. unfold withEnv at 1 2.
      subst o0. rewrite Hctl in Hl1. simpl in Hl1. rewrite Hl1, Hl2. done.
Qed.
End RangeOrder.
End UpClaims.

(** ** The labels stamped by [compileProject] *)

Section Labels.
Context {World Strategy : Type} `{ComposeLabels} `{Collaborators World}.
Implicit Types (proj : Project.t) (compiledOptions : ProjectOptions.t).

Lemma stampLabels_lookup proj compiledOptions i s :
  Project.Services proj !! i = Some s ->
  Project.Services (stampLabels proj compiledOptions) !! i
  = Some (ServiceConfig.setCustomLabels
            (serviceLabels proj (ProjectOptions.EnvFile compiledOptions) s) s).
Proof. intros Hs. unfold stampLabels. simpl. by rewrite list_lookup_fmap, Hs. Qed.

Lemma serviceLabels_inputs proj proj2 envFile s s2 :
  Project.Name proj2 = Project.Name proj ->
  Project.WorkingDir proj2 = Project.WorkingDir proj ->
  Project.ComposeFiles proj2 = Project.ComposeFiles proj ->
  ServiceConfig.Name s2 = ServiceConfig.Name s ->
  serviceLabels proj2 envFile s2 = serviceLabels proj envFile s.
Proof. intros Hn Hw Hf Hs. unfold serviceLabels. by rewrite Hn, Hw, Hf, Hs. Qed.

(** What [compileProject] returns is the compiler's project with the labels
    stamped. *)
Lemma compileProject_stamped (st : @State World Strategy) p :
  (compileProject st).1 = inr p ->
  exists proj compiledOptions, p = stampLabels proj compiledOptions.
Proof.
  unfold compileProject, mbind, M_bind, getCtl, getWorld.
  destruct (cli_NewProjectOptions _ _ _) as [err|o]; [done|].
  destruct (cli_ProjectFromOptions _ _) as [err|proj]; [done|].
  intros [= <-]. by exists proj, o.
Qed.

(** C9. With the seven label keys distinct, stamping gives the service at each
    position a label set that holds exactly the project, service, version,
    working-directory, config-files and one-off labels, and the
    environment-file label when and only when an environment file was
    supplied; the name and the rest of the service are kept.  The label set is
    a function of the project name, the service name, the working directory,
    the manifest list and the environment file alone: a second compilation
    with the same values of these stamps the same label set. *)
Theorem stampLabels_deterministic proj compiledOptions i s :
  NoDup [ProjectLabel; ServiceLabel; VersionLabel; WorkingDirLabel;
         ConfigFilesLabel; OneoffLabel; EnvironmentFileLabel] ->
  Project.Services proj !! i = Some s ->
  exists s',
    Project.Services (stampLabels proj compiledOptions) !! i = Some s'
    /\ ServiceConfig.Name s' = ServiceConfig.Name s
    /\ ServiceConfig.Image s' = ServiceConfig.Image s
    /\ dom (ServiceConfig.CustomLabels s') = labelKeys (ProjectOptions.EnvFile compiledOptions)
    /\ ServiceConfig.CustomLabels s' !! ProjectLabel = Some (Project.Name proj)
    /\ ServiceConfig.CustomLabels s' !! ServiceLabel = Some (ServiceConfig.Name s)
    /\ ServiceConfig.CustomLabels s' !! VersionLabel = Some ComposeVersion
    /\ ServiceConfig.CustomLabels s' !! WorkingDirLabel = Some (Project.WorkingDir proj)
    /\ ServiceConfig.CustomLabels s' !! ConfigFilesLabel
       = Some (strings_Join (Project.ComposeFiles proj) ",")
    /\ ServiceConfig.CustomLabels s' !! OneoffLabel = Some "False"
    /\ ServiceConfig.CustomLabels s' !! EnvironmentFileLabel
       = (if decide (ProjectOptions.EnvFile compiledOptions ≠ "")
          then Some (ProjectOptions.EnvFile compiledOptions) else None)
    /\ (forall proj2 compiledOptions2 j s2,
          Project.Name proj2 = Project.Name proj ->
          Project.WorkingDir proj2 = Project.WorkingDir proj ->
          Project.ComposeFiles proj2 = Project.ComposeFiles proj ->
          ProjectOptions.EnvFile compiledOptions2 = ProjectOptions.EnvFile compiledOptions ->
          Project.Services proj2 !! j = Some s2 ->
          ServiceConfig.Name s2 = ServiceConfig.Name s ->
          exists s2',
            Project.Services (stampLabels proj2 compiledOptions2) !! j = Some s2'
            /\ ServiceConfig.CustomLabels s2' = ServiceConfig.CustomLabels s').
Proof.
  intros Hnd Hs.
  repeat (apply NoDup_cons in Hnd as [? Hnd]).
  repeat match goal with
         | Hn : _ ∉ _ :: _ |- _ => apply not_elem_of_cons in Hn as [? ?]
         end.
  eexists. split; [by apply stampLabels_lookup|]. simpl.
  split; [done|]. split; [done|]. split.
  { unfold serviceLabels, labelKeys.
    destruct (decide (ProjectOptions.EnvFile compiledOptions ≠ ""));
      rewrite !dom_insert_L, dom_empty_L;
      apply set_eq; intros x;
      rewrite !elem_of_union, !elem_of_singleton, !elem_of_empty; tauto. }
  repeat split.
  1-7: unfold serviceLabels;
    destruct (decide (ProjectOptions.EnvFile compiledOptions ≠ ""));
    by simplify_map_eq.
  intros proj2 compiledOptions2 j s2 Hn Hw Hf He Hs2 Hname.
  eexists. split; [by apply stampLabels_lookup|]. simpl.
  rewrite He. by apply serviceLabels_inputs.
Qed.
End Labels.

(** ** The claims on the concrete stack *)

Section OnTheScenario.
Import Scenario.
#[local] Existing Instance labels.


(** When two containers match, the handle is that of the first one. *)
Example ServiceContainer_first_of_two :
  (ServiceContainer "web"
     (boot (stack (gateway None None) (engine (inr [web; twin])) ["web"]))).1
  = inr (handleOf (stack (gateway None None) (engine (inr [web; twin])) ["web"]) web).
Proof. reflexivity. Qed.

(** C6, counterexample. On a stack whose engine reports no container, both of
    two sequential lookups for ["web"] query the engine. *)
Lemma ServiceContainer_twice_counterexample :
  listQueries
    (calls (ServiceContainer "web"
              (ServiceContainer "web"
                 (boot (stack (gateway None None) (engine (inr [])) ["web"]))).2).2)
  = 2.
Proof. reflexivity. Qed.

Lemma ServiceContainer_cache_reuse_witness :
  listQueries
    (calls (ServiceContainer "web"
              (ServiceContainer "web"
                 (boot (stack (gateway None None) (engine (inr [web; twin])) ["web"]))).2).2)
  <= 1.
Proof.
  pose (st := boot (stack (gateway None None) (engine (inr [web; twin])) ["web"])).
  destruct (ServiceContainer_cache_reuse st "web"
              (handleOf (ctl st) web) (ServiceContainer "web" st).2)
    as (_ & _ & _ & _ & Hq); [reflexivity|].
  exact Hq.
Defined.

Lemma lookupContainer_failure_keeps_cache_witness :
  containers
    (ctl (lookupContainer "web"
            (boot (stack (gateway None None) (engine (inl "engine down")) ["web"]))).2)
    !! "web" = None.
Proof.
  pose (st := boot (stack (gateway None None) (engine (inl "engine down")) ["web"])).
  destruct (lookupContainer_failure_keeps_cache st "web"
              (errExternal "engine down") (lookupContainer "web" st).2)
    as (_ & Hc & _); [reflexivity|].
  exact Hc.
Defined.

(** C1, counterexample. [Down] on a fresh controller whose gateway accepts the
    teardown: success, and one call to the gateway. *)
Lemma Down_before_Up_counterexample :
  project (stack (gateway None None) (engine (inr [])) ["web"]) = None
  /\ Down [] (boot (stack (gateway None None) (engine (inr [])) ["web"]))
     = (None,
        {| ctl := stack (gateway None None) (engine (inr [])) ["web"];
           world := 1;
           calls := [CallDown "stack" (DownOptions.mk false None "")] |}).
Proof. split; reflexivity. Qed.

Lemma Down_before_Up_witness :
  (Down [RemoveImages RemoveImagesLocal]
        (boot (stack (gateway None (Some "no such project")) (engine (inr [])) ["web"]))).1
  = Some (errExternal "no such project").
Proof.
  set (st := boot (stack (gateway None (Some "no such project")) (engine (inr [])) ["web"])).
  destruct (Down_before_Up st [RemoveImages RemoveImagesLocal]
              (Some "no such project") 1) as [_ ->]; reflexivity.
Defined.
End OnTheScenario.

Section UpOnTheScenario.
Import Scenario.
#[local] Existing Instance labels.
#[local] Existing Instance compose.
#[local] Existing Instance inTurn.

Lemma Up_gateway_outcome_witness :
  Up [] (boot (stack (gateway (Some "engine unreachable") None) (engine (inr [])) ["db"; "api"]))
  = (Some (errExternal "engine unreachable"),
     upIssued (boot (stack (gateway (Some "engine unreachable") None) (engine (inr []))
                       ["db"; "api"]))
              [] compiled 1).
Proof.
  set (st := boot _).
  destruct (Up_gateway_outcome st [] compiled (Some "engine unreachable") 1)
    as (Herr & _); [reflexivity|reflexivity|].
  by apply Herr.
Defined.

(** C2, counterexample. Two injections of the key ["X"]: both calls of
    [WithEnv] return the controller with their option queued, and the error
    comes later, from [Up]. *)
Lemma WithEnv_duplicate_counterexample :
  length (projectOptions
            (WithEnv {["X" := "2"]}
               (WithEnv {["X" := "1"]}
                  (stack (gateway None None) (engine (inr [])) ["web"])))) = 2
  /\ Up [] (boot (WithEnv {["X" := "2"]}
                    (WithEnv {["X" := "1"]}
                       (stack (gateway None None) (engine (inr [])) ["web"]))))
     = (Some (errEnvAlreadySet "X"),
        boot (WithEnv {["X" := "2"]}
                (WithEnv {["X" := "1"]}
                   (stack (gateway None None) (engine (inr [])) ["web"])))).
Proof. split; reflexivity. Qed.

Lemma WithEnv_duplicate_key_witness :
  exists k',
    Up [] (boot (WithEnv {["X" := "2"; "Y" := "3"]}
                   (WithEnv {["X" := "1"]}
                      (stack (gateway None None) (engine (inr [])) ["web"]))))
    = (Some (errEnvAlreadySet k'),
       boot (WithEnv {["X" := "2"; "Y" := "3"]}
               (WithEnv {["X" := "1"]}
                  (stack (gateway None None) (engine (inr [])) ["web"])))).
Proof.
  destruct (WithEnv_duplicate_key (fun m => Permutation_refl (map_to_list m))
              (stack (gateway None None) (engine (inr [])) ["web"])
              {["X" := "1"]} {["X" := "2"; "Y" := "3"]} "X" "1")
    as (_ & _ & HUp); [reflexivity|by exists "2"|].
  destruct (HUp eq_refl [] (boot (WithEnv {["X" := "2"; "Y" := "3"]}
                   (WithEnv {["X" := "1"]}
                      (stack (gateway None None) (engine (inr [])) ["web"])))) eq_refl)
    as (k' & _ & _ & HUp').
  exists k'. exact HUp'.
Defined.

Lemma stampLabels_deterministic_witness :
  exists s',
    Project.Services
      (stampLabels (Project.mk "stack" "/work" ["a.yaml"; "b.yaml"] [svc "db"; svc "api"])
                   (ProjectOptions.mk "stack" "/work" ["a.yaml"; "b.yaml"] ∅ ".env")) !! 1
    = Some s'
    /\ dom (ServiceConfig.CustomLabels s') = labelKeys ".env"
    /\ ServiceConfig.CustomLabels s' !! ConfigFilesLabel = Some "a.yaml,b.yaml".
Proof.
  destruct (stampLabels_deterministic
              (Project.mk "stack" "/work" ["a.yaml"; "b.yaml"] [svc "db"; svc "api"])
              (ProjectOptions.mk "stack" "/work" ["a.yaml"; "b.yaml"] ∅ ".env")
              1 (svc "api"))
    as (s' & Hs' & _ & _ & Hdom & _ & _ & _ & _ & Hfiles & _).
  - apply (bool_decide_unpack _). by vm_compute.
  - reflexivity.
  - exists s'. by repeat split.
Defined.
End UpOnTheScenario.

(** * Further properties of the code *)

(** ** The request sent to the gateway *)

Section Request.
Context {World : Type} `{Collaborators World}.
Implicit Types (requested : list string) (services : list ServiceConfig.t)
  (opts : list StackUpOption) (proj : Project.t).

Lemma setServices_same proj : Project.setServices (Project.Services proj) proj = proj.
Proof. by destruct proj. Qed.

Lemma upFilter_names requested services :
  (upFilter requested services).1 ≡ₚ requested.
Proof.
  unfold upFilter. case_decide; simpl; [apply sort_Strings_perm|done].
Qed.

Lemma upFilter_skipped requested services :
  length requested = length services ->
  upFilter requested services = (requested, services).
Proof. intros Heq. unfold upFilter. by rewrite decide_False by (by intros ?). Qed.

(** X1. The names [Up] passes to the gateway are the requested names, all of
    them: sorted when the project is narrowed, in the order given otherwise.
    A requested name that no service bears is dropped from the project but is
    still sent to the gateway. *)
Theorem upRequest_names_sent opts proj :
  CreateOptions.Services (UpOptions.Create (upRequest opts proj).2)
    ≡ₚ stackUpOptions.Services (upOptionsOf opts proj)
  /\ (forall n, n ∈ stackUpOptions.Services (upOptionsOf opts proj) ->
                n ∈ CreateOptions.Services (UpOptions.Create (upRequest opts proj).2))
  /\ (length (stackUpOptions.Services (upOptionsOf opts proj))
        ≠ length (Project.Services proj) ->
      CreateOptions.Services (UpOptions.Create (upRequest opts proj).2)
      = sort_Strings (stackUpOptions.Services (upOptionsOf opts proj)))
  /\ (length (stackUpOptions.Services (upOptionsOf opts proj))
        = length (Project.Services proj) ->
      CreateOptions.Services (UpOptions.Create (upRequest opts proj).2)
      = stackUpOptions.Services (upOptionsOf opts proj)).
Proof.
  destruct (upRequest_project opts proj) as [_ ->].
  split; [apply upFilter_names|]. split.
  - intros n Hn. by rewrite upFilter_names.
  - split; intros Hlen.
    + by rewrite upFilter_narrowed.
    + by rewrite upFilter_skipped.
Qed.

Lemma upOptionsOf_snoc opts opt proj :
  upOptionsOf (opts ++ [opt]) proj = applyToStackUp opt (upOptionsOf opts proj).
Proof. unfold upOptionsOf. by rewrite foldl_app. Qed.

Lemma upOptionsOf_Services opts proj :
  stackUpOptions.Services (upOptionsOf opts proj)
  = default (Project_ServiceNames proj) (lastRunServices opts).
Proof.
  induction opts as [|opt opts IH] using rev_ind; [done|].
  rewrite upOptionsOf_snoc. unfold lastRunServices in *. rewrite omap_app. simpl.
  destruct opt as [l|b|b]; simpl; rewrite ?app_nil_r, ?last_snoc; done.
Qed.

(** X2. Each field of the options of [Up] is decided by the last option of its
    kind: the requested services by the last [RunServices] (all the project's
    service names when there is none), the orphan and wait flags by the last
    [RemoveOrphans] and [Wait] (false when there is none).  No option changes
    the recreate policies: both are always "diverged". *)
Theorem upOptionsOf_fields opts proj :
  stackUpOptions.Services (upOptionsOf opts proj)
    = default (Project_ServiceNames proj) (lastRunServices opts)
  /\ stackUpOptions.RemoveOrphans (upOptionsOf opts proj)
     = default false (lastRemoveOrphansUp opts)
  /\ stackUpOptions.Wait (upOptionsOf opts proj) = default false (lastWait opts)
  /\ stackUpOptions.Recreate (upOptionsOf opts proj) = RecreateDiverged
  /\ stackUpOptions.RecreateDependencies (upOptionsOf opts proj) = RecreateDiverged.
Proof.
  induction opts as [|opt opts IH] using rev_ind; [done|].
  destruct IH as (IHs & IHr & IHw & IHc & IHd).
  rewrite upOptionsOf_snoc.
  unfold lastRunServices, lastRemoveOrphansUp, lastWait in *.
  rewrite !omap_app. simpl.
  destruct opt as [l|b|b]; simpl; rewrite ?app_nil_r, ?last_snoc; simpl; done.
Qed.

(** X3. [RunServices] with no name, on a project that has services, narrows
    the project to no service at all and sends the gateway an empty list of
    names. *)
Theorem upRequest_empty_request opts proj :
  lastRunServices opts = Some [] ->
  Project.Services proj ≠ [] ->
  Project.Services (upRequest opts proj).1 = []
  /\ CreateOptions.Services (UpOptions.Create (upRequest opts proj).2) = [].
Proof.
  intros Hlast Hne.
  destruct (upRequest_project opts proj) as [-> ->].
  rewrite upOptionsOf_Services, Hlast. simpl.
  rewrite upFilter_narrowed by (by destruct (Project.Services proj)).
  simpl. split; [|done].
  destruct (filter _ _) as [|s kept] eqn:Hf; [done|].
  assert (s ∈ filter (fun s => ServiceConfig.Name s ∈ ([] : list string))
                     (Project.Services proj)) as Hin.
  { rewrite Hf. apply elem_of_cons. by left. }
  apply list_elem_of_filter in Hin as [Hin _]. by apply elem_of_nil in Hin.
Qed.

(** X4. Without a [RunServices] option, and with a compiler that names every
    service once, [Up] leaves the project as compiled and asks the gateway
    for all its service names. *)
Theorem upRequest_all_services opts proj :
  lastRunServices opts = None ->
  length (Project_ServiceNames proj) = length (Project.Services proj) ->
  (upRequest opts proj).1 = proj
  /\ CreateOptions.Services (UpOptions.Create (upRequest opts proj).2)
     = Project_ServiceNames proj
  /\ StartOptions.Project (UpOptions.Start (upRequest opts proj).2) = Some proj.
Proof.
  intros Hlast Hlen.
  assert ((upRequest opts proj).1 = proj) as Hproj.
  { destruct (upRequest_project opts proj) as [-> _].
    rewrite upOptionsOf_Services, Hlast. simpl.
    rewrite upFilter_skipped by done. apply setServices_same. }
  split; [done|]. split.
  - destruct (upRequest_project opts proj) as [_ ->].
    rewrite upOptionsOf_Services, Hlast. simpl.
    by rewrite upFilter_skipped.
  - rewrite <- Hproj at 2. unfold upRequest. by destruct (upFilter _ _).
Qed.
End Request.

(** ** [Down], [Up] and [Services] on the controller's state *)

Section Lifecycle.
Context {World Strategy : Type} `{ComposeLabels} `{Collaborators World}.
Context `{!@Readiness World Strategy}.
Implicit Types (st : @State World Strategy) (d : @dockerCompose World Strategy).

Lemma downOptions_snoc d opts opt :
  downOptions d (opts ++ [opt]) = applyToStackDown opt (downOptions d opts).
Proof. unfold downOptions. by rewrite foldl_app. Qed.

(** X5. The options [Down] sends: the orphan flag of the last [RemoveOrphans]
    (false when there is none), the image policy of the last [RemoveImages]
    that is one of the two constants (none, the empty string, when there is
    no such option; any other value of [RemoveImages] is ignored), and the
    controller's project, which no option changes. *)
Theorem downOptions_fields d opts :
  DownOptions.RemoveOrphans (downOptions d opts)
    = default false (lastRemoveOrphansDown opts)
  /\ DownOptions.Images (downOptions d opts) = default "" (lastImages opts)
  /\ DownOptions.Project (downOptions d opts) = project d.
Proof.
  induction opts as [|opt opts IH] using rev_ind; [done|].
  destruct IH as (IHr & IHi & IHp).
  rewrite downOptions_snoc.
  unfold lastRemoveOrphansDown, lastImages in *.
  rewrite !omap_app. simpl.
  destruct opt as [b|ri]; simpl; rewrite ?app_nil_r, ?last_snoc; simpl; [done|].
  unfold imagesOf.
  destruct (ri =? RemoveImagesAll)%Z; simpl; rewrite ?last_snoc; [done|].
  destruct (ri =? RemoveImagesLocal)%Z; simpl; rewrite ?last_snoc, ?app_nil_r; done.
Qed.

Lemma Down_state st opts :
  (Down opts st).2 =
    {| ctl := ctl st;
       world := (Service_Down (composeService (ctl st)) (name (ctl st))
                   (downOptions (ctl st) opts) (world st)).2;
       calls := calls st ++ [CallDown (name (ctl st)) (downOptions (ctl st) opts)] |}.
Proof.
  destruct (Service_Down (composeService (ctl st)) (name (ctl st))
              (downOptions (ctl st) opts) (world st)) as [r w] eqn:Hr.
  by rewrite (Down_run st opts r w Hr).
Qed.

(** X6. [Down] never touches the controller: after it, whatever the gateway
    answered, the compiled project is still set and the cache still holds its
    handles, so a lookup for a cached service returns the handle of the
    container that was torn down, without asking the engine. *)
Theorem Down_keeps_cache st opts svcName c :
  containers (ctl st) !! svcName = Some c ->
  ctl (Down opts st).2 = ctl st
  /\ ServiceContainer svcName (Down opts st).2 = (inr c, (Down opts st).2)
  /\ listQueries (calls (Down opts st).2) = listQueries (calls st).
Proof.
  intros Hc. rewrite Down_state. split; [done|]. split.
  - by apply lookupContainer_hit.
  - simpl. unfold listQueries. rewrite List.filter_app, length_app. simpl. lia.
Qed.

(** X7. When compilation fails, [Up] returns the compiler's error without
    calling the gateway, and the controller's project becomes nil even if an
    earlier [Up] had compiled one: [Services] panics afterwards.  The cache
    is kept. *)
Theorem Up_compile_failure st opts err :
  (compileProject st).1 = inl err ->
  (Up opts st).1 = Some err
  /\ project (ctl (Up opts st).2) = None
  /\ containers (ctl (Up opts st).2) = containers (ctl st)
  /\ calls (Up opts st).2 = calls st
  /\ world (Up opts st).2 = world st
  /\ (Services (Up opts st).2).1 = Panics panicNilDereference.
Proof.
  intros Hc. by rewrite (Up_compile_error st opts err Hc).
Qed.

(** X8. On the paths where [Up] returns without the readiness fan-out (the
    gateway failed, or no strategy is registered), the cache is as it was
    before [Up]: a handle cached before the stack was brought up again is
    still what a lookup returns, without a list-query. *)
Theorem Up_keeps_cache st opts proj r w svcName c :
  (compileProject st).1 = inr proj ->
  Service_Up (composeService (ctl st)) (upRequest opts proj).1 (upRequest opts proj).2
             (world st) = (r, w) ->
  is_Some r \/ waitStrategies (ctl st) = ∅ ->
  containers (ctl st) !! svcName = Some c ->
  containers (ctl (Up opts st).2) = containers (ctl st)
  /\ ServiceContainer svcName (Up opts st).2 = (inr c, (Up opts st).2).
Proof.
  intros Hc Hr Hearly Hcache.
  assert ((Up opts st).2 = upIssued st opts proj w) as ->.
  { rewrite (Up_run st opts proj r w Hc Hr). destruct r as [msg|]; [done|].
    destruct Hearly as [[? [=]]|Hws]. rewrite Hws, map_size_empty.
    by rewrite decide_True. }
  split; [done|]. by apply lookupContainer_hit.
Qed.

(** X9. After [Up] has returned on one of those paths, [Services] returns the
    service names of the narrowed project, the one sent to the gateway. *)
Theorem Services_after_Up st opts proj r w :
  (compileProject st).1 = inr proj ->
  Service_Up (composeService (ctl st)) (upRequest opts proj).1 (upRequest opts proj).2
             (world st) = (r, w) ->
  is_Some r \/ waitStrategies (ctl st) = ∅ ->
  Services (Up opts st).2
  = (Returns (Project_ServiceNames (upRequest opts proj).1), (Up opts st).2).
Proof.
  intros Hc Hr Hearly.
  assert ((Up opts st).2 = upIssued st opts proj w) as ->.
  { rewrite (Up_run st opts proj r w Hc Hr). destruct r as [msg|]; [done|].
    destruct Hearly as [[? [=]]|Hws]. rewrite Hws, map_size_empty.
    by rewrite decide_True. }
  done.
Qed.

(** X10. Before the first [Up], [Services] panics on the nil project, and
    neither the configuration mutators nor [Down] change that. *)
Theorem Services_before_Up st :
  project (ctl st) = None ->
  Services st = (Panics panicNilDereference, st)
  /\ (forall opts, (Services (Down opts st).2).1 = Panics panicNilDereference)
  /\ (forall m, project (WithEnv m (ctl st)) = None)
  /\ project (WithOsEnv (ctl st)) = None
  /\ (forall s strategy, project (WaitForService s strategy (ctl st)) = None).
Proof.
  intros Hp. split.
  - unfold Services, mbind, M_bind, getCtl. by rewrite Hp.
  - split; [|done]. intros opts. rewrite Down_state.
    unfold Services, mbind, M_bind, getCtl. simpl. by rewrite Hp.
Qed.

(** X12. One strategy per service: registering again for the same name
    replaces the earlier strategy, and registrations for different names do
    not depend on their order. *)
Theorem WaitForService_last_wins d s t a b :
  WaitForService s a (WaitForService s b d) = WaitForService s a d
  /\ waitStrategies (WaitForService s a d) !! s = Some a
  /\ (s ≠ t ->
      WaitForService s a (WaitForService t b d)
      = WaitForService t b (WaitForService s a d)).
Proof.
  unfold WaitForService, setWaitStrategies. simpl. split; [|split].
  - by rewrite insert_insert_eq.
  - by rewrite lookup_insert_eq.
  - intros Hne. by rewrite insert_insert_ne.
Qed.
End Lifecycle.

(** ** Environment injection, whatever the order of [range] *)

Section Injection.
Context {World : Type} `{Collaborators World}.
Hypothesis rangeOrder_perm : forall m : gmap string string, rangeOrder m ≡ₚ map_to_list m.
Implicit Types (options : ProjectOptions.t) (m : gmap string string).

Lemma setEnvironment_same options :
  ProjectOptions.setEnvironment (ProjectOptions.Environment options) options = options.
Proof. by destruct options. Qed.

Lemma withEnvLoop_union entries options :
  NoDup entries.*1 ->
  (forall k, k ∈ entries.*1 -> ProjectOptions.Environment options !! k = None) ->
  withEnvLoop entries options =
    (None, ProjectOptions.setEnvironment
             (list_to_map entries ∪ ProjectOptions.Environment options) options).
Proof.
  revert options. induction entries as [|[k v] entries IH]; intros options Hnd Hfresh; simpl.
  - by rewrite (left_id_L ∅ (∪)), setEnvironment_same.
  - rewrite Hfresh by (simpl; apply elem_of_cons; by left).
    simpl in Hnd. apply NoDup_cons in Hnd as [Hk Hnd].
    rewrite IH; [|done|].
    + simpl. f_equal. unfold ProjectOptions.setEnvironment. simpl. f_equal.
      rewrite <- insert_union_l. rewrite <- insert_union_r; [done|].
      apply not_elem_of_list_to_map_1. done.
    + intros k' Hk'. simpl. rewrite lookup_insert_ne by (by intros ->).
      apply Hfresh. simpl. apply elem_of_cons. by right.
Qed.

Lemma withEnvLoop_frame entries options r options' :
  withEnvLoop entries options = (r, options') ->
  ProjectOptions.Environment options ⊆ ProjectOptions.Environment options'
  /\ (forall k v, ProjectOptions.Environment options' !! k = Some v ->
        ProjectOptions.Environment options !! k = Some v \/ (k, v) ∈ entries)
  /\ options' = ProjectOptions.setEnvironment (ProjectOptions.Environment options') options.
Proof.
  revert options. induction entries as [|[k0 v0] entries IH]; intros options Hl; simpl in Hl.
  - injection Hl as <- <-. split; [done|]. split; [by left|by rewrite setEnvironment_same].
  - destruct (ProjectOptions.Environment options !! k0) eqn:Hk0.
    + injection Hl as <- <-. split; [done|]. split; [by left|by rewrite setEnvironment_same].
    + apply IH in Hl as (Hsub & Honly & Hrest). simpl in *. split; [|split].
      * etrans; [|exact Hsub]. by apply insert_subseteq.
      * intros k v Hkv. destruct (Honly k v Hkv) as [Hin|Hin].
        -- destruct (decide (k0 = k)) as [->|Hne].
           ++ rewrite lookup_insert_eq in Hin. injection Hin as ->.
              right. apply elem_of_cons. by left.
           ++ rewrite lookup_insert_ne in Hin by done. by left.
        -- right. apply elem_of_cons. by right.
      * rewrite Hrest at 1. by destruct options.
Qed.

Lemma withEnv_union m options w :
  dom m ## dom (ProjectOptions.Environment options) ->
  withEnv m options w =
    (None, ProjectOptions.setEnvironment (m ∪ ProjectOptions.Environment options) options).
Proof.
  intros Hdisj. unfold withEnv. rewrite withEnvLoop_union.
  - do 3 f_equal. rewrite <- (list_to_map_to_list m) at 2.
    apply list_to_map_proper; [|apply rangeOrder_perm].
    rewrite rangeOrder_perm. apply NoDup_fst_map_to_list.
  - rewrite rangeOrder_perm. apply NoDup_fst_map_to_list.
  - intros k Hk. apply not_elem_of_dom. intros Hin. apply (Hdisj k); [|done].
    apply elem_of_dom. rewrite rangeOrder_perm in Hk.
    apply list_elem_of_fmap in Hk as [[k' v] [-> Hkv]].
    apply elem_of_map_to_list in Hkv. by exists v.
Qed.

(** X13. Injecting a map none of whose keys is set yet succeeds, in whatever
    order [range] visits the map, and adds exactly its entries to the
    environment: afterwards every key of the map has the map's value and
    every other key the value it had.  The other options are untouched, and
    an empty map changes nothing. *)
Theorem withEnv_fresh m options w :
  dom m ## dom (ProjectOptions.Environment options) ->
  withEnv m options w =
    (None, ProjectOptions.setEnvironment (m ∪ ProjectOptions.Environment options) options)
  /\ (forall k, ProjectOptions.Environment (withEnv m options w).2 !! k
                = match m !! k with
                  | Some v => Some v
                  | None => ProjectOptions.Environment options !! k
                  end)
  /\ (m = ∅ -> withEnv m options w = (None, options)).
Proof.
  intros Hdisj. rewrite withEnv_union by done. split; [done|]. split.
  - intros k. simpl. rewrite lookup_union. destruct (m !! k) as [v|] eqn:Hm.
    + by destruct (ProjectOptions.Environment options !! k).
    + by destruct (ProjectOptions.Environment options !! k).
  - intros ->. by rewrite (left_id_L ∅ (∪)), setEnvironment_same.
Qed.

(** X14. A failing injection reports a key of its map that was already set,
    and it is not undone: the entries of the map visited before the duplicate
    stay in the environment.  What it leaves is the old environment, with
    every old value in place, plus some entries of the map; the other options
    are untouched. *)
Theorem withEnv_failure m options w e options' :
  withEnv m options w = (Some e, options') ->
  (exists k, e = errEnvAlreadySet k /\ is_Some (m !! k)
             /\ is_Some (ProjectOptions.Environment options !! k))
  /\ ProjectOptions.Environment options ⊆ ProjectOptions.Environment options'
  /\ ProjectOptions.Environment options' ⊆ ProjectOptions.Environment options ∪ m
  /\ options' = ProjectOptions.setEnvironment (ProjectOptions.Environment options') options.
Proof.
  unfold withEnv. intros Hl.
  destruct (withEnvLoop_frame _ _ _ _ Hl) as (Hsub & Honly & Hrest).
  split; [|split; [done|split; [|done]]].
  - destruct (decide (Exists (fun k => is_Some (ProjectOptions.Environment options !! k))
                              (rangeOrder m).*1)) as [Hdup|Hfresh].
    + apply Exists_exists in Hdup as (k & Hk & Hset).
      destruct (withEnvLoop_duplicate (rangeOrder m) options k Hk Hset)
        as (k' & o' & Hl' & Hk' & Hset').
      rewrite Hl' in Hl. injection Hl as <- <-. exists k'. split; [done|]. split.
      * rewrite rangeOrder_perm in Hk'.
        apply list_elem_of_fmap in Hk' as [[k'' v] [-> Hkv]].
        apply elem_of_map_to_list in Hkv. by exists v.
      * apply Hset'. rewrite rangeOrder_perm. apply NoDup_fst_map_to_list.
    + rewrite withEnvLoop_union in Hl; [done| |].
      * rewrite rangeOrder_perm. apply NoDup_fst_map_to_list.
      * intros k Hk. destruct (ProjectOptions.Environment options !! k) eqn:E; [|done].
        destruct Hfresh. apply Exists_exists. exists k. split; [done|]. by rewrite E.
  - apply map_subseteq_spec. intros k v Hkv. apply lookup_union_Some_raw.
    destruct (ProjectOptions.Environment options !! k) as [v2|] eqn:Hold.
    + left. rewrite map_subseteq_spec in Hsub. specialize (Hsub k v2 Hold). congruence.
    + right. split; [done|]. destruct (Honly k v Hkv) as [Hin|Hin]; [congruence|].
      rewrite rangeOrder_perm in Hin. by apply elem_of_map_to_list in Hin.
Qed.

(** X15. Two injections whose key sets are disjoint from each other and from
    the environment can be applied in either order: both orders succeed and
    give the same environment, the union of the two maps and the old
    environment. *)
Theorem withEnv_disjoint_commute m1 m2 options w :
  dom m1 ## dom m2 ->
  dom m1 ## dom (ProjectOptions.Environment options) ->
  dom m2 ## dom (ProjectOptions.Environment options) ->
  applyProjectOptions [withEnv m1; withEnv m2] options w
  = inr (ProjectOptions.setEnvironment
           (m1 ∪ m2 ∪ ProjectOptions.Environment options) options)
  /\ applyProjectOptions [withEnv m2; withEnv m1] options w
     = applyProjectOptions [withEnv m1; withEnv m2] options w.
Proof.
  intros H12 H1 H2.
  assert (forall ma mb, dom ma ## dom mb ->
            dom ma ## dom (ProjectOptions.Environment options) ->
            dom mb ## dom (ProjectOptions.Environment options) ->
            applyProjectOptions [withEnv ma; withEnv mb] options w
            = inr (ProjectOptions.setEnvironment
                     (ma ∪ mb ∪ ProjectOptions.Environment options) options)) as Hrun.
  { intros ma mb Hab Ha Hb. simpl. rewrite (withEnv_union ma) by done.
    rewrite (withEnv_union mb).
    - destruct options. simpl. unfold ProjectOptions.setEnvironment. simpl. do 2 f_equal.
      rewrite (assoc_L (∪)). f_equal. apply map_union_comm. by apply map_disjoint_dom_2.
    - simpl. rewrite dom_union_L. apply disjoint_union_r. split; [by symmetry|done]. }
  split; [by apply Hrun|].
  rewrite !Hrun by done. do 3 f_equal. apply map_union_comm. by apply map_disjoint_dom_2.
Qed.
End Injection.

(** ** Labels and lookups *)

Section LabelsAndLookups.
Context {World Strategy : Type} `{ComposeLabels}.
Implicit Types (proj : Project.t) (compiledOptions : ProjectOptions.t)
  (st : @State World Strategy) (svcName : string).

Lemma serviceLabels_stamped proj compiledOptions envFile s :
  serviceLabels (stampLabels proj compiledOptions) envFile s = serviceLabels proj envFile s.
Proof. done. Qed.

(** X16. Stamping replaces whatever labels a service carried: it keeps the
    project's name, working directory and files, and the number, order, names
    and images of the services, and stamping a stamped project again changes
    nothing. *)
Theorem stampLabels_idempotent proj compiledOptions :
  stampLabels (stampLabels proj compiledOptions) compiledOptions
    = stampLabels proj compiledOptions
  /\ ServiceConfig.Name <$> Project.Services (stampLabels proj compiledOptions)
     = ServiceConfig.Name <$> Project.Services proj
  /\ ServiceConfig.Image <$> Project.Services (stampLabels proj compiledOptions)
     = ServiceConfig.Image <$> Project.Services proj
  /\ Project.Name (stampLabels proj compiledOptions) = Project.Name proj
  /\ (forall labels,
        stampLabels
          (Project.setServices
             (ServiceConfig.setCustomLabels labels <$> Project.Services proj) proj)
          compiledOptions
        = stampLabels proj compiledOptions).
Proof.
  unfold stampLabels, Project.setServices. simpl.
  split; [|split; [|split; [|split; [done|]]]].
  - f_equal. rewrite map_map. by apply map_ext.
  - rewrite <- list_fmap_compose. by apply list_fmap_ext.
  - rewrite <- list_fmap_compose. by apply list_fmap_ext.
  - intros labels. f_equal.
    match goal with
    | |- map ?f (?g <$> ?l) = map ?h ?l =>
        change (f <$> (g <$> l) = h <$> l)
    end.
    rewrite <- list_fmap_compose. by apply list_fmap_ext.
Qed.

(** X17. With the label keys distinct, two services of a project are stamped
    with the same label set exactly when they bear the same name. *)
Theorem serviceLabels_identify proj envFile s1 s2 :
  NoDup [ProjectLabel; ServiceLabel; VersionLabel; WorkingDirLabel;
         ConfigFilesLabel; OneoffLabel; EnvironmentFileLabel] ->
  serviceLabels proj envFile s1 = serviceLabels proj envFile s2
  <-> ServiceConfig.Name s1 = ServiceConfig.Name s2.
Proof.
  intros Hnd. split.
  - intros Heq. apply (f_equal (fun m => m !! ServiceLabel)) in Heq.
    repeat (apply NoDup_cons in Hnd as [? Hnd]).
    repeat match goal with
           | Hn : _ ∉ _ :: _ |- _ => apply not_elem_of_cons in Hn as [? ?]
           end.
    unfold serviceLabels in Heq.
    destruct (decide (envFile ≠ "")); by simplify_map_eq.
  - intros Heq. unfold serviceLabels. by rewrite Heq.
Qed.

(** X18. The list-query of [lookupContainer] asks for all containers, running
    or not, with two label filters, and these are the project and service
    labels as [compileProject] stamps them: for a project named as the stack,
    the filters are the stamped values of the two labels of the service. *)
Theorem lookup_filters_match_labels proj compiledOptions s stackName :
  NoDup [ProjectLabel; ServiceLabel; VersionLabel; WorkingDirLabel;
         ConfigFilesLabel; OneoffLabel; EnvironmentFileLabel] ->
  Project.Name proj = stackName ->
  s ∈ Project.Services (stampLabels proj compiledOptions) ->
  exists pv sv,
    ServiceConfig.CustomLabels s !! ProjectLabel = Some pv
    /\ ServiceConfig.CustomLabels s !! ServiceLabel = Some sv
    /\ listOptionsFor stackName (ServiceConfig.Name s)
       = ContainerListOptions.mk true
           [("label", (ProjectLabel ++ "=" ++ pv)%string);
            ("label", (ServiceLabel ++ "=" ++ sv)%string)].
Proof.
  intros Hnd Hname Hs. unfold stampLabels in Hs. simpl in Hs.
  apply list_elem_of_fmap in Hs as (s0 & -> & Hs0).
  exists (Project.Name proj), (ServiceConfig.Name s0). simpl.
  repeat (apply NoDup_cons in Hnd as [? Hnd]).
  repeat match goal with
         | Hn : _ ∉ _ :: _ |- _ => apply not_elem_of_cons in Hn as [? ?]
         end.
  split; [|split].
  - unfold serviceLabels.
    destruct (decide (ProjectOptions.EnvFile compiledOptions ≠ "")); by simplify_map_eq.
  - unfold serviceLabels.
    destruct (decide (ProjectOptions.EnvFile compiledOptions ≠ "")); by simplify_map_eq.
  - by rewrite Hname.
Qed.

(** X19. A lookup for one service leaves the cache entries of every other
    service as they were, and changes nothing else of the controller. *)
Theorem lookupContainer_frame st svcName other :
  other ≠ svcName ->
  containers (ctl (lookupContainer svcName st).2) !! other = containers (ctl st) !! other
  /\ setContainers (containers (ctl st)) (ctl (lookupContainer svcName st).2) = ctl st.
Proof.
  intros Hne. destruct (containers (ctl st) !! svcName) as [c'|] eqn:Hc.
  - rewrite (lookupContainer_hit st svcName c' Hc). simpl. split; [done|].
    by destruct (ctl st).
  - destruct (ContainerList (dockerClient (ctl st))
                (listOptionsFor (name (ctl st)) svcName) (world st)) as [r w] eqn:Hr.
    rewrite (lookupContainer_miss st svcName r w Hc Hr).
    destruct r as [err|[|d ds]]; simpl; try (split; [done|by destruct (ctl st)]).
    split; [by rewrite lookup_insert_ne|by destruct (ctl st)].
Qed.

(** X20. [lookupContainer] passes an error of the engine on as it is: it
    returns that error exactly when it issues its list-query and the query
    fails; nothing is cached then. *)
Theorem lookupContainer_engine_error st svcName msg :
  (lookupContainer svcName st).1 = inl (errExternal msg)
  <-> calls (lookupContainer svcName st).2
        = calls st ++ [CallContainerList (listOptionsFor (name (ctl st)) svcName)]
      /\ (ContainerList (dockerClient (ctl st))
            (listOptionsFor (name (ctl st)) svcName) (world st)).1 = inl msg.
Proof.
  destruct (ContainerList (dockerClient (ctl st))
              (listOptionsFor (name (ctl st)) svcName) (world st)) as [r w] eqn:Hr.
  destruct (containers (ctl st) !! svcName) as [c'|] eqn:Hc.
  - rewrite (lookupContainer_hit st svcName c' Hc). simpl. split; [done|].
    intros [Hcalls _]. by apply app_singleton_neq in Hcalls.
  - rewrite (lookupContainer_miss st svcName r w Hc Hr).
    destruct r as [err|[|d ds]]; simpl.
    + split; [by intros [= ->]|by intros [_ [= ->]]].
    + split; [done|by intros [_ ?]].
    + split; [done|by intros [_ ?]].
Qed.

(** X21. A sequence of lookups only appends list-queries to the log of calls,
    at most one per lookup, and never removes a handle from the cache. *)
Theorem lookups_queries svcNames st :
  (exists qs, calls (lookups svcNames st).2 = calls st ++ qs
              /\ Forall (fun c => isListQuery c = true) qs
              /\ length qs <= length svcNames)
  /\ containers (ctl st) ⊆ containers (ctl (lookups svcNames st).2).
Proof.
  revert st. induction svcNames as [|n ns IH]; intros st.
  - split; [|done]. exists []. by rewrite app_nil_r.
  - simpl. unfold mbind, M_bind, ServiceContainer.
    assert ((exists qs, calls (lookupContainer n st).2 = calls st ++ qs
               /\ Forall (fun c => isListQuery c = true) qs /\ length qs <= 1)
            /\ containers (ctl st) ⊆ containers (ctl (lookupContainer n st).2)) as [Hq Hsub].
    { destruct (containers (ctl st) !! n) as [c'|] eqn:Hc.
      - rewrite (lookupContainer_hit st n c' Hc). simpl. split; [|done].
        exists []. rewrite app_nil_r. repeat split; [done|simpl; lia].
      - destruct (ContainerList (dockerClient (ctl st))
                    (listOptionsFor (name (ctl st)) n) (world st)) as [r w] eqn:Hr.
        rewrite (lookupContainer_miss st n r w Hc Hr).
        destruct r as [err|[|d ds]]; simpl.
        all: split; [eexists [_]; repeat split; [by repeat constructor|simpl; lia]|].
        1,2: done.
        by apply insert_subseteq. }
    destruct (lookupContainer n st) as [r st']. simpl in *.
    destruct (IH st') as [(qs' & Hcalls' & Hall' & Hlen') Hsub'].
    destruct Hq as (qs & Hcalls & Hall & Hlen). split.
    + exists (qs ++ qs'). rewrite Hcalls', Hcalls, <- app_assoc.
      split; [done|]. split; [by apply Forall_app|]. rewrite length_app. lia.
    + by etrans.
Qed.

(** X22. Every handle a lookup caches works through the controller's own
    docker client: if all cached handles do, so do all of them after any
    lookup, and the handle returned does. *)
Theorem lookupContainer_client st svcName :
  map_Forall (fun _ c => client (provider c) = dockerClient (ctl st)) (containers (ctl st)) ->
  map_Forall (fun _ c => client (provider c) = dockerClient (ctl st))
             (containers (ctl (lookupContainer svcName st).2))
  /\ (forall c, (lookupContainer svcName st).1 = inr c ->
                client (provider c) = dockerClient (ctl st)).
Proof.
  intros Hall. destruct (containers (ctl st) !! svcName) as [c'|] eqn:Hc.
  - rewrite (lookupContainer_hit st svcName c' Hc). simpl. split; [done|].
    intros c [= <-]. by apply (Hall svcName).
  - destruct (ContainerList (dockerClient (ctl st))
                (listOptionsFor (name (ctl st)) svcName) (world st)) as [r w] eqn:Hr.
    rewrite (lookupContainer_miss st svcName r w Hc Hr).
    destruct r as [err|[|d ds]]; simpl; try (split; [done|by intros c [=]]).
    split; [by apply map_Forall_insert_2|]. by intros c [= <-].
Qed.
End LabelsAndLookups.

(** ** Staging compose files given as readers *)

Section Hash.
Implicit Types (b : list ascii) (currentDir : string).

Lemma length_hexString b : String.length (hexString b) = 2 * length b.
Proof. induction b as [|c b IH]; simpl; [done|]. rewrite IH. lia. Qed.

Lemma length_list_ascii_of_string s :
  length (list_ascii_of_string s) = String.length s.
Proof. induction s as [|c s IH]; simpl; [done|]. by rewrite IH. Qed.

Lemma substring_hexString n b :
  n <= length b ->
  String.substring 0 (2 * n) (hexString b) = hexString (take n b).
Proof.
  revert b. induction n as [|n IH]; intros b Hn.
  - simpl. by destruct (hexString b).
  - destruct b as [|c b]; simpl in Hn; [lia|].
    replace (2 * S n) with (S (S (2 * n))) by lia. simpl.
    do 2 f_equal. apply IH. lia.
Qed.

Lemma length_fnv_New32a_Sum b : length (fnv_New32a_Sum b) = length b + 4.
Proof. unfold fnv_New32a_Sum. by rewrite length_app. Qed.

Lemma projectHash_out_of_range currentDir :
  String.length currentDir < 12 -> projectHash currentDir = Panics panicSliceBounds.
Proof.
  intros Hlen. unfold projectHash, sliceTo. rewrite decide_False; [done|].
  rewrite length_hexString, length_fnv_New32a_Sum, length_list_ascii_of_string. lia.
Qed.

(** X23. The "hash" of the working directory is defined only for a path of at
    least twelve bytes: on a shorter one the slice [[:32]] is out of range and
    the call panics.  When defined it is 32 hexadecimal digits long. *)
Theorem projectHash_short currentDir :
  (String.length currentDir < 12 <-> projectHash currentDir = Panics panicSliceBounds)
  /\ (forall h, projectHash currentDir = Returns h -> String.length h = 32).
Proof.
  unfold projectHash, sliceTo.
  rewrite length_hexString, length_fnv_New32a_Sum, length_list_ascii_of_string.
  case_decide as Hlen; (split; [split|]); try done; try lia.
  intros h [= <-].
    replace 32 with (2 * 16) by done.
    rewrite substring_hexString
      by (rewrite length_fnv_New32a_Sum, length_list_ascii_of_string; lia).
    rewrite length_hexString, length_take, length_fnv_New32a_Sum,
      length_list_ascii_of_string. lia.
Qed.

(** X24. For a working directory of sixteen bytes or more the "hash" is the
    hexadecimal rendering of its first sixteen bytes, nothing is hashed: two
    directories that agree on their first sixteen bytes get the same one. *)
Theorem projectHash_prefix currentDir :
  16 <= String.length currentDir ->
  projectHash currentDir
    = Returns (hexString (take 16 (list_ascii_of_string currentDir)))
  /\ (forall otherDir,
        16 <= String.length otherDir ->
        take 16 (list_ascii_of_string otherDir) = take 16 (list_ascii_of_string currentDir) ->
        projectHash otherDir = projectHash currentDir).
Proof.
  assert (forall dir, 16 <= String.length dir ->
            projectHash dir = Returns (hexString (take 16 (list_ascii_of_string dir)))) as Hhash.
  { intros dir Hlen. unfold projectHash, sliceTo.
    rewrite decide_True
      by (rewrite length_hexString, length_fnv_New32a_Sum, length_list_ascii_of_string; lia).
    replace 32 with (2 * 16) by done.
    rewrite substring_hexString
      by (rewrite length_fnv_New32a_Sum, length_list_ascii_of_string; lia).
    unfold fnv_New32a_Sum. rewrite take_app_le; [done|].
    rewrite length_list_ascii_of_string. lia. }
  intros Hlen. split; [by apply Hhash|].
  intros otherDir Hother Heq. rewrite !Hhash by done. by rewrite Heq.
Qed.
End Hash.

Section Readers.
Context {World : Type} `{Host World}.
Implicit Types (r : list Reader) (o : composeStackOptions.t) (w : World).

Lemma stageLoop_staged tmpDir idx r filePaths w paths w' :
  stageLoop tmpDir idx r filePaths w = (Returns paths, w') ->
  exists staged, paths = filePaths ++ staged
    /\ sublist staged (stagedName tmpDir <$> seq idx (length r)).
Proof.
  revert idx filePaths w. induction r as [|src r IH]; intros idx filePaths w Hl; simpl in Hl.
  - injection Hl as <- <-. exists []. by rewrite app_nil_r.
  - unfold io_ReadAll in Hl. destruct src as [err|content]; [done|].
    destruct (os_WriteFile (stagedName tmpDir idx) content w) as [[e|] w1].
    + apply IH in Hl as (staged & -> & Hsub). exists staged. split; [done|].
      simpl. by apply sublist_cons.
    + apply IH in Hl as (staged & -> & Hsub). exists (stagedName tmpDir idx :: staged).
      split; [by rewrite <- app_assoc|]. simpl. by apply sublist_skip.
Qed.

Lemma stageLoop_all_written tmpDir idx r filePaths w :
  (forall f c w0, (os_WriteFile f c w0).1 = None) ->
  Forall readable r ->
  (stageLoop tmpDir idx r filePaths w).1
  = Returns (filePaths ++ (stagedName tmpDir <$> seq idx (length r))).
Proof.
  intros Hwrite Hr. revert idx filePaths w.
  induction Hr as [|src r [content ->] Hr IH]; intros idx filePaths w; simpl.
  - by rewrite app_nil_r.
  - pose proof (Hwrite (stagedName tmpDir idx) content w) as Hw.
    destruct (os_WriteFile (stagedName tmpDir idx) content w) as [[e|] w1]; [done|].
    rewrite IH. by rewrite <- app_assoc.
Qed.

Lemma stageLoop_none_written tmpDir idx r filePaths w :
  (forall f c w0, is_Some (os_WriteFile f c w0).1) ->
  Forall readable r ->
  (stageLoop tmpDir idx r filePaths w).1 = Returns filePaths.
Proof.
  intros Hwrite Hr. revert idx w.
  induction Hr as [|src r [content ->] Hr IH]; intros idx w; simpl; [done|].
  pose proof (Hwrite (stagedName tmpDir idx) content w) as Hw.
  destruct (os_WriteFile (stagedName tmpDir idx) content w) as [[e|] w1]; [apply IH|].
  by destruct Hw.
Qed.

Lemma stageLoop_unreadable tmpDir idx good err rest filePaths w :
  Forall readable good ->
  stageLoop tmpDir idx (good ++ inl err :: rest) filePaths w
  = (Panics (panicError err), (stageLoop tmpDir idx good filePaths w).2).
Proof.
  intros Hgood. revert idx filePaths w.
  induction Hgood as [|src good [content ->] Hgood IH]; intros idx filePaths w; simpl; [done|].
  destruct (os_WriteFile (stagedName tmpDir idx) content w) as [[e|] w1]; apply IH.
Qed.

(** X25. Whenever [ComposeStackReaders] returns, the identifier of the options
    is kept and the paths, whatever they were, are replaced by staged files:
    a sublist, in order, of [docker-compose-0.yaml], [docker-compose-1.yaml],
    ... in the staging directory, one candidate per reader. *)
Theorem ComposeStackReaders_paths r o w o' w' :
  ComposeStackReaders_apply r o w = (Returns o', w') ->
  composeStackOptions.Identifier o' = composeStackOptions.Identifier o
  /\ exists currentDir tmpDir,
       os_Getwd w = inr currentDir
       /\ stagingDir currentDir w = Returns tmpDir
       /\ sublist (composeStackOptions.Paths o')
                  (stagedName tmpDir <$> seq 0 (length r))
       /\ length (composeStackOptions.Paths o') <= length r.
Proof.
  unfold ComposeStackReaders_apply. intros Happly.
  destruct (os_Getwd w) as [err|currentDir]; [done|].
  destruct (stagingDir currentDir w) as [tmpDir|p] eqn:Hdir; [|done].
  destruct (os_MkdirAll tmpDir w) as [[err|] w1]; [done|].
  destruct (stageLoop tmpDir 0 r [] w1) as [[paths|p] w2] eqn:Hloop; [|done].
  injection Happly as <- <-. simpl. split; [done|].
  apply stageLoop_staged in Hloop as (staged & -> & Hsub). simpl.
  exists currentDir, tmpDir. split; [done|]. split; [done|]. split; [done|].
  apply sublist_length in Hsub. by rewrite length_fmap, length_seq in Hsub.
Qed.

(** X26. On a host where the working directory is long enough, the staging
    directory can be made and every write succeeds, readable readers are all
    staged: the paths are the staged names of the indices 0 to [len(r) - 1],
    in order. *)
Theorem ComposeStackReaders_all_staged r o w currentDir tmpDir w1 :
  os_Getwd w = inr currentDir ->
  stagingDir currentDir w = Returns tmpDir ->
  os_MkdirAll tmpDir w = (None, w1) ->
  (forall f c w0, (os_WriteFile f c w0).1 = None) ->
  Forall readable r ->
  (ComposeStackReaders_apply r o w).1
  = Returns (composeStackOptions.mk (composeStackOptions.Identifier o)
               (stagedName tmpDir <$> seq 0 (length r))).
Proof.
  intros Hwd Hdir Hmk Hwrite Hr. unfold ComposeStackReaders_apply.
  rewrite Hwd, Hdir, Hmk.
  pose proof (stageLoop_all_written tmpDir 0 r [] w1 Hwrite Hr) as Hloop.
  by destruct (stageLoop tmpDir 0 r [] w1) as [[paths|p] w2]; simpl in Hloop; simplify_eq/=.
Qed.

(** X27. A file that cannot be written is skipped without any error: on a
    host where no write succeeds the call still returns, with an empty list
    of paths. *)
Theorem ComposeStackReaders_writes_fail r o w currentDir tmpDir w1 :
  os_Getwd w = inr currentDir ->
  stagingDir currentDir w = Returns tmpDir ->
  os_MkdirAll tmpDir w = (None, w1) ->
  (forall f c w0, is_Some (os_WriteFile f c w0).1) ->
  Forall readable r ->
  (ComposeStackReaders_apply r o w).1
  = Returns (composeStackOptions.mk (composeStackOptions.Identifier o) []).
Proof.
  intros Hwd Hdir Hmk Hwrite Hr. unfold ComposeStackReaders_apply.
  rewrite Hwd, Hdir, Hmk.
  pose proof (stageLoop_none_written tmpDir 0 r [] w1 Hwrite Hr) as Hloop.
  by destruct (stageLoop tmpDir 0 r [] w1) as [[paths|p] w2]; simpl in Hloop; simplify_eq/=.
Qed.

(** X28. [ComposeStackReaders] panics, leaving the host untouched, when the
    working directory cannot be determined and when its path is shorter than
    twelve bytes; it panics with the error of [MkdirAll] when the staging
    directory cannot be made, before any file is written. *)
Theorem ComposeStackReaders_panics r o w :
  (forall err, os_Getwd w = inl err ->
     ComposeStackReaders_apply r o w = (Panics (panicError err), w))
  /\ (forall currentDir, os_Getwd w = inr currentDir ->
        String.length currentDir < 12 ->
        ComposeStackReaders_apply r o w = (Panics panicSliceBounds, w))
  /\ (forall currentDir tmpDir err w1, os_Getwd w = inr currentDir ->
        stagingDir currentDir w = Returns tmpDir ->
        os_MkdirAll tmpDir w = (Some err, w1) ->
        ComposeStackReaders_apply r o w = (Panics (panicError err), w1)).
Proof.
  unfold ComposeStackReaders_apply. split; [|split].
  - by intros err ->.
  - intros currentDir -> Hlen. unfold stagingDir.
    by rewrite (projectHash_out_of_range currentDir Hlen).
  - by intros currentDir tmpDir err w1 -> -> ->.
Qed.

(** X29. A reader that cannot be read makes the call panic with the read
    error, and nothing is undone: the files staged for the readers before it
    stay written. *)
Theorem ComposeStackReaders_unreadable good err rest o w currentDir tmpDir w1 :
  os_Getwd w = inr currentDir ->
  stagingDir currentDir w = Returns tmpDir ->
  os_MkdirAll tmpDir w = (None, w1) ->
  Forall readable good ->
  ComposeStackReaders_apply (good ++ inl err :: rest) o w
  = (Panics (panicError err), (stageLoop tmpDir 0 good [] w1).2).
Proof.
  intros Hwd Hdir Hmk Hgood. unfold ComposeStackReaders_apply.
  rewrite Hwd, Hdir, Hmk. by rewrite stageLoop_unreadable.
Qed.
End Readers.


(** ** The further properties on the concrete stack *)

Section FurtherOnTheScenario.
Import Scenario.
#[local] Existing Instance labels.
#[local] Existing Instance compose.
#[local] Existing Instance inTurn.

Lemma upRequest_empty_request_witness :
  Project.Services (upRequest [Wait true; RunServices []] compiled).1 = [].
Proof.
  destruct (upRequest_empty_request [Wait true; RunServices []] compiled) as [Hp _];
    [reflexivity|discriminate|exact Hp].
Defined.

Lemma upRequest_all_services_witness :
  (upRequest [Wait true] compiled).1 = compiled.
Proof.
  destruct (upRequest_all_services [Wait true] compiled) as [Hp _];
    [reflexivity|reflexivity|exact Hp].
Defined.

Lemma Down_keeps_cache_witness :
  (ServiceContainer "web" (Down [] (warmed (gateway None None) ["web"])).2).1
  = inr (handleOf (stack (gateway None None) (engine (inr [web; twin])) ["web"]) web).
Proof.
  destruct (Down_keeps_cache (warmed (gateway None None) ["web"]) [] "web"
              (handleOf (stack (gateway None None) (engine (inr [web; twin])) ["web"]) web))
    as (_ & Hl & _); [reflexivity|].
  by rewrite Hl.
Defined.

Lemma Up_compile_failure_witness :
  project
    (ctl (Up [] (boot (setProject (Some compiled)
                         (WithEnv {["X" := "2"]}
                            (WithEnv {["X" := "1"]}
                               (stack (gateway None None) (engine (inr [])) ["db"; "api"])))))).2)
  = None.
Proof.
  destruct (Up_compile_failure
              (boot (setProject (Some compiled)
                       (WithEnv {["X" := "2"]}
                          (WithEnv {["X" := "1"]}
                             (stack (gateway None None) (engine (inr [])) ["db"; "api"])))))
              [] (errEnvAlreadySet "X")) as (_ & Hp & _); [reflexivity|exact Hp].
Defined.

Lemma Up_keeps_cache_witness :
  (ServiceContainer "web"
     (Up [] (warmed (gateway (Some "engine unreachable") None) ["db"; "api"])).2).1
  = inr (handleOf (stack (gateway (Some "engine unreachable") None)
                     (engine (inr [web; twin])) ["db"; "api"]) web).
Proof.
  destruct (Up_keeps_cache (warmed (gateway (Some "engine unreachable") None) ["db"; "api"])
              [] compiled (Some "engine unreachable") 2 "web"
              (handleOf (stack (gateway (Some "engine unreachable") None)
                           (engine (inr [web; twin])) ["db"; "api"]) web))
    as [_ Hl]; [reflexivity|reflexivity|left; by eexists|reflexivity|].
  by rewrite Hl.
Defined.

Lemma Services_after_Up_witness :
  (Services (Up [RunServices ["db"]]
               (boot (stack (gateway None None) (engine (inr [])) ["db"; "api"]))).2).1
  = Returns ["db"].
Proof.
  rewrite (Services_after_Up
             (boot (stack (gateway None None) (engine (inr [])) ["db"; "api"]))
             [RunServices ["db"]] compiled None 1);
    [reflexivity|reflexivity|reflexivity|by right].
Defined.

Lemma Services_before_Up_witness :
  (Services (boot (stack (gateway None None) (engine (inr [])) ["db"; "api"]))).1
  = Panics panicNilDereference.
Proof.
  destruct (Services_before_Up
              (boot (stack (gateway None None) (engine (inr [])) ["db"; "api"])))
    as [Hs _]; [reflexivity|].
  by rewrite Hs.
Defined.

(** With a strategy registered for ["api"] and an engine that reports no
    container, the fan-out looks ["api"] up once and [Up] returns its "no
    container found" error. *)
Example Up_fan_out_not_found :
  (Up [] (boot (WaitForService "api" tt
                  (stack (gateway None None) (engine (inr [])) ["db"; "api"])))).1
  = Some (errNoContainer "api")
  /\ listQueries
       (calls (Up [] (boot (WaitForService "api" tt
                              (stack (gateway None None) (engine (inr [])) ["db"; "api"])))).2)
     = 1.
Proof. split; reflexivity. Qed.

Lemma withEnv_fresh_witness :
  (withEnv {["X" := "1"; "Y" := "2"]} (ProjectOptions.mk "" "" [] {["Z" := "0"]} "") 0).1
  = None.
Proof.
  destruct (withEnv_fresh (fun m => Permutation_refl (map_to_list m))
              {["X" := "1"; "Y" := "2"]} (ProjectOptions.mk "" "" [] {["Z" := "0"]} "") 0)
    as [-> _]; [|reflexivity].
  apply (bool_decide_unpack _). by vm_compute.
Defined.

Lemma withEnv_failure_witness :
  ({["X" := "1"]} : gmap string string)
    ⊆ ProjectOptions.Environment
        (withEnv {["X" := "2"; "Y" := "3"]}
                 (ProjectOptions.mk "" "" [] {["X" := "1"]} "") 0).2.
Proof.
  destruct (withEnv_failure (fun m => Permutation_refl (map_to_list m))
              {["X" := "2"; "Y" := "3"]} (ProjectOptions.mk "" "" [] {["X" := "1"]} "") 0
              (errEnvAlreadySet "X")
              (withEnv {["X" := "2"; "Y" := "3"]}
                       (ProjectOptions.mk "" "" [] {["X" := "1"]} "") 0).2)
    as (_ & Hsub & _); [reflexivity|exact Hsub].
Defined.

Lemma withEnv_disjoint_commute_witness :
  applyProjectOptions [withEnv {["B" := "2"]}; withEnv {["A" := "1"]}]
                      (ProjectOptions.mk "" "" [] ∅ "") 0
  = applyProjectOptions [withEnv {["A" := "1"]}; withEnv {["B" := "2"]}]
                        (ProjectOptions.mk "" "" [] ∅ "") 0.
Proof.
  destruct (withEnv_disjoint_commute (fun m => Permutation_refl (map_to_list m))
              {["A" := "1"]} {["B" := "2"]} (ProjectOptions.mk "" "" [] ∅ "") 0)
    as [_ Hc]; [apply (bool_decide_unpack _); by vm_compute..|exact Hc].
Defined.

Lemma serviceLabels_identify_witness :
  serviceLabels compiled "" (ServiceConfig.mk "db" "postgres" ∅)
  = serviceLabels compiled "" (ServiceConfig.mk "db" "mysql" {["tier" := "data"]}).
Proof.
  apply serviceLabels_identify; [|reflexivity].
  apply (bool_decide_unpack _). by vm_compute.
Defined.

Lemma lookup_filters_match_labels_witness :
  exists pv sv,
    ServiceConfig.CustomLabels ((ServiceConfig.setCustomLabels (serviceLabels (Project.mk "stack" "/work" ["db"; "api"] [svc "db"; svc "api"]) "" (svc "db")) (svc "db"))) !! ProjectLabel = Some pv
    /\ ServiceConfig.CustomLabels ((ServiceConfig.setCustomLabels (serviceLabels (Project.mk "stack" "/work" ["db"; "api"] [svc "db"; svc "api"]) "" (svc "db")) (svc "db"))) !! ServiceLabel = Some sv
    /\ listOptionsFor "stack" "db"
       = ContainerListOptions.mk true
           [("label", (ProjectLabel ++ "=" ++ pv)%string);
            ("label", (ServiceLabel ++ "=" ++ sv)%string)].
Proof.
  apply (lookup_filters_match_labels
           (Project.mk "stack" "/work" ["db"; "api"] [svc "db"; svc "api"])
           (ProjectOptions.mk "stack" "" ["db"; "api"] ∅ "") (ServiceConfig.setCustomLabels (serviceLabels (Project.mk "stack" "/work" ["db"; "api"] [svc "db"; svc "api"]) "" (svc "db")) (svc "db")) "stack").
  - apply (bool_decide_unpack _). by vm_compute.
  - reflexivity.
  - apply elem_of_cons. by left.
Defined.

Lemma lookupContainer_frame_witness :
  containers (ctl (lookupContainer "db" (warmed (gateway None None) ["web"])).2) !! "web"
  = containers (ctl (warmed (gateway None None) ["web"])) !! "web".
Proof.
  destruct (lookupContainer_frame (warmed (gateway None None) ["web"]) "db" "web")
    as [Hf _]; [discriminate|exact Hf].
Defined.

Lemma lookupContainer_client_witness :
  client (provider (handleOf (stack (gateway None None) (engine (inr [web; twin])) ["web"])
                             web))
  = engine (inr [web; twin]).
Proof.
  destruct (lookupContainer_client
              (boot (stack (gateway None None) (engine (inr [web; twin])) ["web"])) "web")
    as [_ Hc]; [apply map_Forall_empty|].
  apply (Hc (handleOf (stack (gateway None None) (engine (inr [web; twin])) ["web"]) web)).
  reflexivity.
Defined.

Lemma projectHash_prefix_witness :
  projectHash "/home/goforbroke/project-a" = Returns "2f686f6d652f676f666f7262726f6b65"
  /\ projectHash "/home/goforbroke/project-b" = projectHash "/home/goforbroke/project-a".
Proof.
  destruct (projectHash_prefix "/home/goforbroke/project-a") as [Hh Hsame];
    [simpl; lia|].
  split; [exact Hh|]. apply Hsame; [simpl; lia|reflexivity].
Defined.

Lemma ComposeStackReaders_paths_witness :
  exists currentDir tmpDir,
    os_Getwd (Host:=host homeDir (fun _ => true)) [] = inr currentDir
    /\ stagingDir (H:=host homeDir (fun _ => true)) currentDir [] = Returns tmpDir
    /\ sublist [(homeStaging ++ "/docker-compose-0.yaml")%string;
                (homeStaging ++ "/docker-compose-1.yaml")%string]
               (stagedName (H:=host homeDir (fun _ => true)) tmpDir <$> seq 0 2)
    /\ 2 <= 2.
Proof.
  destruct (ComposeStackReaders_paths (H:=host homeDir (fun _ => true))
              [inr "services: {}"; inr "volumes: {}"]
              (composeStackOptions.mk "stack" ["old.yaml"]) []
              (composeStackOptions.mk "stack"
                 [(homeStaging ++ "/docker-compose-0.yaml")%string;
                  (homeStaging ++ "/docker-compose-1.yaml")%string])
              [((homeStaging ++ "/docker-compose-1.yaml")%string, "volumes: {}");
               ((homeStaging ++ "/docker-compose-0.yaml")%string, "services: {}")])
    as [_ Hpaths]; [reflexivity|exact Hpaths].
Defined.

Lemma ComposeStackReaders_all_staged_witness :
  (ComposeStackReaders_apply (H:=host homeDir (fun _ => true))
     [inr "services: {}"; inr "volumes: {}"]
     (composeStackOptions.mk "stack" ["old.yaml"]) []).1
  = Returns (composeStackOptions.mk "stack"
               [(homeStaging ++ "/docker-compose-0.yaml")%string;
                (homeStaging ++ "/docker-compose-1.yaml")%string]).
Proof.
  rewrite (ComposeStackReaders_all_staged (H:=host homeDir (fun _ => true))
             [inr "services: {}"; inr "volumes: {}"]
             (composeStackOptions.mk "stack" ["old.yaml"]) [] homeDir homeStaging []);
    try reflexivity.
  repeat constructor; by eexists.
Defined.

Lemma ComposeStackReaders_writes_fail_witness :
  (ComposeStackReaders_apply (H:=host homeDir (fun _ => false))
     [inr "services: {}"; inr "volumes: {}"]
     (composeStackOptions.mk "stack" ["old.yaml"]) []).1
  = Returns (composeStackOptions.mk "stack" []).
Proof.
  apply (ComposeStackReaders_writes_fail (H:=host homeDir (fun _ => false))
           [inr "services: {}"; inr "volumes: {}"]
           (composeStackOptions.mk "stack" ["old.yaml"]) [] homeDir homeStaging []);
    try reflexivity.
  - intros f c w0. by eexists.
  - repeat constructor; by eexists.
Defined.

Lemma ComposeStackReaders_unreadable_witness :
  ComposeStackReaders_apply (H:=host homeDir (fun _ => true))
     [inr "services: {}"; inl "unexpected EOF"; inr "volumes: {}"]
     (composeStackOptions.mk "stack" []) []
  = (Panics (panicError "unexpected EOF"),
     [((homeStaging ++ "/docker-compose-0.yaml")%string, "services: {}")]).
Proof.
  apply (ComposeStackReaders_unreadable (H:=host homeDir (fun _ => true))
           [inr "services: {}"] "unexpected EOF" [inr "volumes: {}"]
           (composeStackOptions.mk "stack" []) [] homeDir homeStaging []);
    try reflexivity.
  repeat constructor; by eexists.
Defined.
End FurtherOnTheScenario.
